(** * Live lecture transcription: a model of [live_transcription.py]

    The program captures microphone audio in a callback, hands the chunks
    through a [queue.Queue] to a worker thread that feeds a streaming
    recognizer, redraws the console when the hypothesis changes, and saves
    the last hypothesis to a timestamped file when recording stops.

    The model is a shallow embedding: every method of [LiveTranscriber] is
    a computation in a small state-and-exception monad over the object's
    attributes and the world around it (numpy memory, the audio hardware's
    buffers, the file system, the wall clock and a chronological trace of
    the calls made to external collaborators).  The three threads (capture
    callback, worker, main) are interleaved by explicit schedules. *)

From Stdlib Require Import String Ascii DecimalString QArith.
From stdpp Require Import base numbers option list gmap.

Set Default Proof Using "Type".

(** ** Python text

    A Python [str] is a sequence of Unicode code points. *)

Abbreviation str := (list N).

Fixpoint lit (s : string) : str :=
  match s with
  | EmptyString => []
  | String a s' => N_of_ascii a :: lit s'
  end.

(** [str.isspace] for one code point: the characters [str.strip()]
    removes when called without argument. *)
Definition isspace (c : N) : bool :=
  ((9 <=? c) && (c <=? 13)         (* U+0009 .. U+000D *)
   || (28 <=? c) && (c <=? 32)     (* U+001C .. U+0020 *)
   || (c =? 133) || (c =? 160)     (* U+0085, U+00A0 *)
   || (c =? 5760)                  (* U+1680 *)
   || (8192 <=? c) && (c <=? 8202) (* U+2000 .. U+200A *)
   || (c =? 8232) || (c =? 8233)   (* U+2028, U+2029 *)
   || (c =? 8239) || (c =? 8287)   (* U+202F, U+205F *)
   || (c =? 12288))%N.             (* U+3000 *)

Fixpoint lstrip (s : str) : str :=
  match s with
  | [] => []
  | c :: s' => if isspace c then lstrip s' else s
  end.

Definition rstrip (s : str) : str := reverse (lstrip (reverse s)).

Definition strip (s : str) : str := rstrip (lstrip s).

(** Truth value of a [str] in a condition: non-empty. *)
Definition truthy (s : str) : bool :=
  match s with [] => false | _ :: _ => true end.

Lemma lstrip_nil (s : str) : lstrip s = [] ↔ Forall (fun c => isspace c = true) s.
Proof.
  induction s as [|c s IH]; simpl; [by split|].
  destruct (isspace c) eqn:Hc.
  - rewrite IH. split; [by constructor|by inversion 1].
  - split; [done|]. inversion 1; congruence.
Qed.

Lemma lstrip_spaces (s : str) :
  Forall (fun c => isspace c = true) (lstrip s) → lstrip s = [].
Proof.
  induction s as [|c s IH]; simpl; [done|].
  destruct (isspace c) eqn:Hc; [done|]. inversion 1; congruence.
Qed.

(** [s.strip()] is empty exactly when [s] is white space only. *)
Lemma strip_nil (s : str) : strip s = [] ↔ Forall (fun c => isspace c = true) s.
Proof.
  unfold strip, rstrip. rewrite <- lstrip_nil. split.
  - intros H. apply (f_equal reverse) in H. rewrite reverse_involutive in H.
    change (reverse []) with (@nil N) in H.
    apply lstrip_nil, Forall_reverse in H. rewrite reverse_involutive in H.
    by apply lstrip_spaces.
  - by intros ->.
Qed.

Lemma truthy_strip (s : str) :
  truthy (strip s) = true ↔ ∃ c, c ∈ s ∧ isspace c = false.
Proof.
  destruct (strip s) eqn:Hs; simpl.
  - apply strip_nil in Hs. split; [done|]. intros (c & Hc & Hsp).
    rewrite Forall_forall in Hs. apply Hs in Hc. congruence.
  - split; [intros _|done].
    destruct (decide (Forall (fun c => isspace c = true) s)) as [H|H].
    + apply strip_nil in H. congruence.
    + apply not_Forall_Exists in H; [|solve_decision].
      apply Exists_exists in H as (c & Hc & Hsp). exists c. split; [done|].
      unfold compose in Hsp. simpl in Hsp.
      destruct (isspace c); [by destruct Hsp|done].
Qed.

(** ["=" * n] and the like. *)
Definition times (s : str) (n : nat) : str := concat (replicate n s).

(** ** Wall-clock time *)

Record datetime := {
  year : nat; month : nat; day : nat;
  hour : nat; minute : nat; second : nat
}.

Definition digit (n : nat) : N := N.of_nat (48 + n mod 10).
Definition pad2 (n : nat) : str := [digit (n / 10); digit n].
Definition pad4 (n : nat) : str :=
  [digit (n / 1000); digit (n / 100); digit (n / 10); digit n].

(** [d.strftime(fmt)] for the directives the program uses; any other
    character of the format is copied. *)
Fixpoint strftime (fmt : string) (d : datetime) : str :=
  match fmt with
  | EmptyString => []
  | String "%" (String "Y" r) => pad4 (year d) ++ strftime r d
  | String "%" (String "m" r) => pad2 (month d) ++ strftime r d
  | String "%" (String "d" r) => pad2 (day d) ++ strftime r d
  | String "%" (String "H" r) => pad2 (hour d) ++ strftime r d
  | String "%" (String "M" r) => pad2 (minute d) ++ strftime r d
  | String "%" (String "S" r) => pad2 (second d) ++ strftime r d
  | String a r => N_of_ascii a :: strftime r d
  end.

(** *** Facts about the text the program formats *)

(** The length of a literal. *)
Lemma length_lit (s : string) : length (lit s) = String.length s.
Proof. induction s as [|a s IH]; simpl; [done|by rewrite IH]. Qed.

(** A date and time as [datetime.now()] returns it, with a year of four
    digits. *)
Definition wellformed (d : datetime) : Prop :=
  1000 ≤ year d < 100 * 100 ∧ 1 ≤ month d ≤ 12 ∧ 1 ≤ day d ≤ 31
  ∧ hour d < 24 ∧ minute d < 60 ∧ second d < 60.

Lemma digit_inj (a b : nat) : digit a = digit b → a mod 10 = b mod 10.
Proof. unfold digit. intros H. apply Nat2N.inj in H. lia. Qed.

Lemma pad2_inj (a b : nat) : a < 100 → b < 100 → pad2 a = pad2 b → a = b.
Proof.
  intros Ha Hb H. unfold pad2 in H.
  assert (H1 : digit (a / 10) = digit (b / 10)) by congruence.
  assert (H2 : digit a = digit b) by congruence.
  apply digit_inj in H1, H2.
  pose proof (Nat.div_mod_eq a 10). pose proof (Nat.div_mod_eq b 10).
  pose proof (Nat.div_mod_eq (a / 10) 10). pose proof (Nat.div_mod_eq (b / 10) 10).
  assert (a / 10 / 10 = 0) by (rewrite Nat.Div0.div_div; apply Nat.div_small; lia).
  assert (b / 10 / 10 = 0) by (rewrite Nat.Div0.div_div; apply Nat.div_small; lia).
  lia.
Qed.

Lemma pad4_inj (a b : nat) : a < 100 * 100 → b < 100 * 100 → pad4 a = pad4 b → a = b.
Proof.
  intros Ha Hb H. unfold pad4 in H.
  assert (H1 : digit (a / 1000) = digit (b / 1000)) by congruence.
  assert (H2 : digit (a / 100) = digit (b / 100)) by congruence.
  assert (H3 : digit (a / 10) = digit (b / 10)) by congruence.
  assert (H4 : digit a = digit b) by congruence.
  apply digit_inj in H1, H2, H3, H4.
  pose proof (Nat.div_mod_eq a 10). pose proof (Nat.div_mod_eq b 10).
  pose proof (Nat.div_mod_eq (a / 10) 10). pose proof (Nat.div_mod_eq (b / 10) 10).
  pose proof (Nat.div_mod_eq (a / 100) 10). pose proof (Nat.div_mod_eq (b / 100) 10).
  pose proof (Nat.div_mod_eq (a / 1000) 10). pose proof (Nat.div_mod_eq (b / 1000) 10).
  assert (a / 10 / 10 = a / 100) by (by rewrite Nat.Div0.div_div).
  assert (b / 10 / 10 = b / 100) by (by rewrite Nat.Div0.div_div).
  assert (a / 100 / 10 = a / 1000) by (by rewrite Nat.Div0.div_div).
  assert (b / 100 / 10 = b / 1000) by (by rewrite Nat.Div0.div_div).
  assert (a / 1000 / 10 = 0) by (rewrite Nat.Div0.div_div; apply Nat.div_small; lia).
  assert (b / 1000 / 10 = 0) by (rewrite Nat.Div0.div_div; apply Nat.div_small; lia).
  lia.
Qed.

Lemma strftime_stamp (d : datetime) :
  strftime "%Y%m%d_%H%M%S" d
  = pad4 (year d) ++ pad2 (month d) ++ pad2 (day d) ++ [95%N]
    ++ pad2 (hour d) ++ pad2 (minute d) ++ pad2 (second d).
Proof. reflexivity. Qed.

Lemma stamp_inj (d1 d2 : datetime) :
  wellformed d1 → wellformed d2 →
  strftime "%Y%m%d_%H%M%S" d1 = strftime "%Y%m%d_%H%M%S" d2 → d1 = d2.
Proof.
  intros (Hy1 & Hm1 & Hd1 & HH1 & HM1 & HS1) (Hy2 & Hm2 & Hd2 & HH2 & HM2 & HS2).
  rewrite !strftime_stamp. destruct d1, d2. cbn [year month day hour minute second] in *.
  unfold pad4, pad2. cbn [app]. intros H.
  f_equal.
  - apply pad4_inj; [lia|lia|]. unfold pad4. congruence.
  - apply pad2_inj; [lia|lia|]. unfold pad2. congruence.
  - apply pad2_inj; [lia|lia|]. unfold pad2. congruence.
  - apply pad2_inj; [lia|lia|]. unfold pad2. congruence.
  - apply pad2_inj; [lia|lia|]. unfold pad2. congruence.
  - apply pad2_inj; [lia|lia|]. unfold pad2. congruence.
Qed.

Lemma length_stamp (d : datetime) : length (strftime "%Y%m%d_%H%M%S" d) = 15.
Proof. reflexivity. Qed.


(** ** Exceptions *)

Inductive exn :=
  | KeyboardInterrupt            (* a BaseException outside Exception *)
  | BaseException (msg : str)    (* any other exception outside Exception *)
  | Empty                        (* queue.Empty *)
  | IndexError (msg : str)
  | Exception (msg : str).       (* any other subclass of Exception *)

(** [isinstance(e, Exception)] *)
Definition is_Exception (e : exn) : bool :=
  match e with
  | KeyboardInterrupt | BaseException _ => false
  | Empty | IndexError _ | Exception _ => true
  end.

(** [str(e)], as the f-strings of the handlers format it. *)
Definition exn_str (e : exn) : str :=
  match e with
  | KeyboardInterrupt | Empty => []
  | BaseException m | IndexError m | Exception m => m
  end.

(** How a call ends: it returns, it raises, or the calling thread has to
    wait for something the call cannot obtain (a free slot of a full
    queue). *)
Inductive result (A : Type) :=
  | Ret (a : A)
  | Raise (e : exn)
  | Blocked.
Arguments Ret {A} a.
Arguments Raise {A} e.
Arguments Blocked {A}.

(** State and exceptions: a computation over a state of type [S]. *)
Definition SE (S A : Type) : Type := S -> result A * S.

#[export] Instance SE_ret {S} : MRet (SE S) := fun A a st => (Ret a, st).

#[export] Instance SE_bind {S} : MBind (SE S) := fun A B f m st =>
  match m st with
  | (Ret a, st') => f a st'
  | (Raise e, st') => (Raise e, st')
  | (Blocked, st') => (Blocked, st')
  end.

Definition raise {S A} (e : exn) : SE S A := fun st => (Raise e, st).
Definition gets {S A} (f : S -> A) : SE S A := fun st => (Ret (f st), st).
Definition modify {S} (f : S -> S) : SE S unit := fun st => (Ret tt, f st).

(** [try: body except ...: handler]: [handler e] is [None] when no
    clause matches [e]. *)
Definition try_except {S A} (body : SE S A) (handler : exn -> option (SE S A))
    : SE S A := fun st =>
  match body st with
  | (Raise e, st') =>
      match handler e with
      | Some h => h st'
      | None => (Raise e, st')
      end
  | other => other
  end.

(** [try: body finally: fin], also the exit of a [with] block: [fin] runs
    however [body] ends, unless the thread never leaves [body]. *)
Definition finally {S A} (body : SE S A) (fin : SE S unit) : SE S A := fun st =>
  match body st with
  | (Blocked, st') => (Blocked, st')
  | (r, st') =>
      match fin st' with
      | (Ret _, st'') => (r, st'')
      | (Raise e, st'') => (Raise e, st'')
      | (Blocked, st'') => (Blocked, st'')
      end
  end.

(** A computation on a component of the state. *)
Definition zoom {S T A} (get : S -> T) (set : T -> S -> S) (m : SE T A)
    : SE S A := fun st =>
  match m (get st) with (r, t) => (r, set t st) end.


(** ** Durations, in milliseconds *)

Definition get_timeout : nat := 100.    (* audio_queue.get(timeout=0.1) *)
Definition sleep_time : nat := 100.     (* time.sleep(0.1) *)
Definition join_timeout : nat := 2000.  (* transcription_thread.join(timeout=2.0) *)

(** ** The external collaborators

    Everything the program imports and does not define: the pretrained
    model with its streaming context ([parakeet_mlx]), the wall clock, the
    listing of audio devices and the formatting of a float. *)

(** Contents of a numpy array of one or two dimensions. *)
Inductive array_data (sample : Type) :=
  | Data1 (xs : list sample)                             (* shape (n,) *)
  | Data2 (channels : nat) (rows : list (list sample)).  (* shape (n, channels) *)
Arguments Data1 {sample} xs.
Arguments Data2 {sample} channels rows.

#[export] Instance array_data_inhabited {sample} : Inhabited (array_data sample) :=
  populate (Data1 []).

Class Runtime := {
  sample : Type;
  (** the state of the streaming context that [model.transcribe_stream]
      returns and [add_audio] updates *)
  session : Type;
  transcribe_stream : nat * nat -> nat -> bool -> session;
  add_audio : session -> array_data sample -> session * option exn;
  result_text : session -> str;
  (** [datetime.now()], by the number of readings made before *)
  clock : nat -> datetime;
  (** [str(sd.query_devices())] *)
  query_devices : str;
  (** [str(x)] of a float *)
  repr_float : Q -> str
}.

(** [str(n)] of a non-negative int. *)
Definition repr_int (n : N) : str := lit (NilZero.string_of_uint (N.to_uint n)).

(** An [ndarray] object: a view sharing the memory of a buffer of the
    audio hardware (all of it, or column 0 of it), or an array that owns
    its memory. *)
Inductive ndarray :=
  | View (b : nat) (column0 : bool)
  | Owned (a : nat).

(** [queue.Queue(maxsize)]: unbounded when [maxsize] is 0. *)
Record Queue := { maxsize : nat; items : list ndarray }.

(** [Queue._full] *)
Definition full (q : Queue) : bool :=
  (0 <? maxsize q) && (maxsize q <=? length (items q)).

(** Where the worker thread stands in [transcription_worker]. *)
Inductive worker_pc :=
  | Unstarted                (* Thread object created, [start] not called *)
  | WReady                   (* started, at the top of [transcription_worker] *)
  | WLoop                    (* inside the [with], at [while self.is_recording] *)
  | WGet (waited : nat)      (* waiting in [audio_queue.get(timeout=0.1)] *)
  | WDone                    (* returned *)
  | WRaised (e : exn).       (* ended by an exception that left the function *)

Record Thread := { daemon : bool; pc : worker_pc }.

Definition is_alive (t : Thread) : bool :=
  match pc t with
  | WReady | WLoop | WGet _ => true
  | Unstarted | WDone | WRaised _ => false
  end.

(** What the program does to the outside, in the order it does it. *)
Inductive obs {E : Runtime} :=
  | Printed (text : str)                    (* written to stdout *)
  | Rendered (text : str)                   (* [display_transcription] called *)
  | LoadModel (name : str)                  (* [from_pretrained(name)] called *)
  | Acquired (context_size : nat * nat) (depth : nat)
             (keep_original_attention : bool)  (* streaming context entered *)
  | Submitted (audio : array_data sample)   (* [transcriber.add_audio(audio)] *)
  | ResultText (text : str)                 (* [transcriber.result.text] read *)
  | Released                                (* streaming context exited *)
  | OpenStream (samplerate : N) (channels : nat) (blocksize : Z)
  | CloseStream
  | OpenFile (name : str)                   (* [open(name, 'w')] *)
  | Joined (waited : nat).                  (* [join] returned after so long *)

Section Program.
Context {E : Runtime}.

(** The attributes of a [LiveTranscriber]. *)
Record LiveTranscriber := {
  model : str;
  sample_rate : N;
  chunk_duration : Q;
  chunk_size : Z;
  audio_queue : Queue;
  is_recording : bool;
  transcription_thread : option Thread;
  full_transcription : list str;
  current_text : str
}.

(** The world around the object. *)
Record World := {
  hw : gmap nat (array_data sample);   (* buffers owned by the audio hardware *)
  arrays : list (array_data sample);   (* memory of the arrays numpy allocated *)
  stream_session : option session;     (* the recognizer's open streaming context *)
  stream_open : bool;                  (* the input stream delivers callbacks *)
  fs : gmap str str;                   (* files, by name *)
  clock_reads : nat;                   (* readings of the wall clock so far *)
  uptime : nat;                        (* milliseconds elapsed *)
  trace : list obs
}.

Record State := { self : LiveTranscriber; world : World }.

Definition set_audio_queue (q : Queue) (o : LiveTranscriber) :=
  {| model := model o; sample_rate := sample_rate o;
     chunk_duration := chunk_duration o; chunk_size := chunk_size o;
     audio_queue := q; is_recording := is_recording o;
     transcription_thread := transcription_thread o;
     full_transcription := full_transcription o;
     current_text := current_text o |}.

Definition set_is_recording (r : bool) (o : LiveTranscriber) :=
  {| model := model o; sample_rate := sample_rate o;
     chunk_duration := chunk_duration o; chunk_size := chunk_size o;
     audio_queue := audio_queue o; is_recording := r;
     transcription_thread := transcription_thread o;
     full_transcription := full_transcription o;
     current_text := current_text o |}.

Definition set_transcription_thread (t : option Thread) (o : LiveTranscriber) :=
  {| model := model o; sample_rate := sample_rate o;
     chunk_duration := chunk_duration o; chunk_size := chunk_size o;
     audio_queue := audio_queue o; is_recording := is_recording o;
     transcription_thread := t;
     full_transcription := full_transcription o;
     current_text := current_text o |}.

Definition set_full_transcription (l : list str) (o : LiveTranscriber) :=
  {| model := model o; sample_rate := sample_rate o;
     chunk_duration := chunk_duration o; chunk_size := chunk_size o;
     audio_queue := audio_queue o; is_recording := is_recording o;
     transcription_thread := transcription_thread o;
     full_transcription := l;
     current_text := current_text o |}.

Definition set_current_text (s : str) (o : LiveTranscriber) :=
  {| model := model o; sample_rate := sample_rate o;
     chunk_duration := chunk_duration o; chunk_size := chunk_size o;
     audio_queue := audio_queue o; is_recording := is_recording o;
     transcription_thread := transcription_thread o;
     full_transcription := full_transcription o;
     current_text := s |}.

Definition set_hw (h : gmap nat (array_data sample)) (w : World) :=
  {| hw := h; arrays := arrays w; stream_session := stream_session w;
     stream_open := stream_open w; fs := fs w; clock_reads := clock_reads w;
     uptime := uptime w; trace := trace w |}.

Definition set_arrays (a : list (array_data sample)) (w : World) :=
  {| hw := hw w; arrays := a; stream_session := stream_session w;
     stream_open := stream_open w; fs := fs w; clock_reads := clock_reads w;
     uptime := uptime w; trace := trace w |}.

Definition set_stream_session (s : option session) (w : World) :=
  {| hw := hw w; arrays := arrays w; stream_session := s;
     stream_open := stream_open w; fs := fs w; clock_reads := clock_reads w;
     uptime := uptime w; trace := trace w |}.

Definition set_stream_open (b : bool) (w : World) :=
  {| hw := hw w; arrays := arrays w; stream_session := stream_session w;
     stream_open := b; fs := fs w; clock_reads := clock_reads w;
     uptime := uptime w; trace := trace w |}.

Definition set_fs (f : gmap str str) (w : World) :=
  {| hw := hw w; arrays := arrays w; stream_session := stream_session w;
     stream_open := stream_open w; fs := f; clock_reads := clock_reads w;
     uptime := uptime w; trace := trace w |}.

Definition set_clock_reads (n : nat) (w : World) :=
  {| hw := hw w; arrays := arrays w; stream_session := stream_session w;
     stream_open := stream_open w; fs := fs w; clock_reads := n;
     uptime := uptime w; trace := trace w |}.

Definition set_uptime (n : nat) (w : World) :=
  {| hw := hw w; arrays := arrays w; stream_session := stream_session w;
     stream_open := stream_open w; fs := fs w; clock_reads := clock_reads w;
     uptime := n; trace := trace w |}.

Definition set_trace (t : list obs) (w : World) :=
  {| hw := hw w; arrays := arrays w; stream_session := stream_session w;
     stream_open := stream_open w; fs := fs w; clock_reads := clock_reads w;
     uptime := uptime w; trace := t |}.

Definition on_self (f : LiveTranscriber -> LiveTranscriber) (st : State) :=
  {| self := f (self st); world := world st |}.

Definition on_world (f : World -> World) (st : State) :=
  {| self := self st; world := f (world st) |}.

(** Computations of the main program, before an object exists, and of
    the methods. *)
Definition W (A : Type) : Type := SE World A.
Definition M (A : Type) : Type := SE State A.

Definition in_world {A} (m : W A) : M A :=
  zoom world (fun w st => {| self := self st; world := w |}) m.

(** *** Primitives on the world *)

Definition emit (o : obs) : W unit :=
  modify (fun w => set_trace (trace w ++ [o]) w).

(** [print(s, end=e)] and [print(s)] *)
Definition print_end (s e : str) : W unit := emit (Printed (s ++ e)).
Definition print (s : str) : W unit := print_end s [10%N].

(** [datetime.now()] *)
Definition now : W datetime := fun w =>
  (Ret (clock (clock_reads w)), set_clock_reads (S (clock_reads w)) w).

(** [open(name, 'w')]: the file is created, or emptied when it exists. *)
Definition open_w (name : str) : W unit :=
  emit (OpenFile name);;
  modify (fun w => set_fs (<[name := []]> (fs w)) w).

(** [f.write(s)] on the file opened under [name]. *)
Definition write (name : str) (s : str) : W unit :=
  modify (fun w => set_fs (alter (fun c => c ++ s) name (fs w)) w).

(** *** numpy *)

(** [arr.ndim] *)
Definition ndim (w : World) (arr : ndarray) : nat :=
  match arr with
  | View b false => match hw w !!! b with Data1 _ => 1 | Data2 _ _ => 2 end
  | View b true => 1
  | Owned a => match arrays w !!! a with Data1 _ => 1 | Data2 _ _ => 2 end
  end.

(** Channel 0 of every frame. *)
Definition channel0 (d : array_data sample) : array_data sample :=
  match d with
  | Data2 _ rows => Data1 (omap head rows)
  | Data1 xs => Data1 xs
  end.

(** The samples an array object denotes at the moment it is read. *)
Definition contents (w : World) (arr : ndarray) : array_data sample :=
  match arr with
  | View b false => hw w !!! b
  | View b true => channel0 (hw w !!! b)
  | Owned a => arrays w !!! a
  end.

(** [indata[:, 0]] on the array over hardware buffer [b]: a view, no
    sample is read. *)
Definition column0 (b : nat) : W ndarray := fun w =>
  match hw w !!! b with
  | Data2 (S _) _ => (Ret (View b true), w)
  | Data2 0 _ =>
      (Raise (IndexError (lit "index 0 is out of bounds for axis 1 with size 0")), w)
  | Data1 _ => (Raise (IndexError (lit "too many indices for array")), w)
  end.

(** [arr.copy()]: a new array on memory of its own. *)
Definition copy (arr : ndarray) : W ndarray := fun w =>
  (Ret (Owned (length (arrays w))), set_arrays (arrays w ++ [contents w arr]) w).

(** *** The queue *)

(** [self.audio_queue.put(item)] *)
Definition queue_put (item : ndarray) : M unit := fun st =>
  let q := audio_queue (self st) in
  if full q then (Blocked, st)
  else (Ret tt, on_self (set_audio_queue
                  {| maxsize := maxsize q; items := items q ++ [item] |}) st).

(** [self.audio_queue.get(timeout=0.1)] for a caller that has waited
    [waited] ms in it: the oldest item when there is one, [queue.Empty]
    once the timeout has passed, and until then the caller waits. *)
Definition queue_get (waited : nat) : M ndarray := fun st =>
  let q := audio_queue (self st) in
  match items q with
  | x :: rest =>
      (Ret x, on_self (set_audio_queue {| maxsize := maxsize q; items := rest |}) st)
  | [] => if get_timeout <=? waited then (Raise Empty, st) else (Blocked, st)
  end.

(** *** LiveTranscriber.audio_callback (lines 43-50)

    [indata] is the array over hardware buffer [b]; [frames] and [time]
    are not used by the method. *)
Definition audio_callback (b : nat) (status : str) : M unit :=
  let indata := View b false in
  (if truthy status
   then in_world (print (lit "Audio status: " ++ status))
   else mret tt);;
  d ← gets (fun st => ndim (world st) indata);
  audio_chunk ← (if 1 <? d then in_world (column0 b) else mret indata);
  c ← in_world (copy audio_chunk);
  queue_put c.

(** *** LiveTranscriber.display_transcription (lines 88-111) *)
Definition display_transcription : M unit :=
  shown ← gets (fun st => current_text (self st));
  in_world (emit (Rendered shown));;
  t ← in_world now;
  let timestamp := strftime "%H:%M:%S" t in
  in_world (print_end ([27%N] ++ lit "[2J" ++ [27%N] ++ lit "[H") []);;
  in_world (print (times (lit "=") 80));;
  in_world (print ([0x1F3A4%N] ++ lit " LIVE LECTURE TRANSCRIPTION - " ++ timestamp));;
  in_world (print (times (lit "=") 80));;
  in_world (print []);;
  text ← gets (fun st => current_text (self st));
  (if truthy (strip text)
   then in_world (print (lit "Current transcription:"));;
        in_world (print (times (lit "-") 40));;
        in_world (print text);;
        in_world (print [])
   else in_world (print (lit "Listening... (speak into your microphone)"));;
        in_world (print []));;
  in_world (print (times (lit "=") 80));;
  in_world (print (lit "Press Ctrl+C to stop recording"));;
  in_world (print (times (lit "=") 80)).

(** *** LiveTranscriber.transcription_worker (lines 52-86) *)

(** Entering and leaving the [with self.model.transcribe_stream(...)]
    block (lines 57-61). *)
Definition enter_stream : W unit :=
  emit (Acquired (256, 256) 1 false);;
  modify (set_stream_session (Some (transcribe_stream (256, 256) 1 false))).

Definition exit_stream : W unit :=
  emit Released;;
  modify (set_stream_session None).

(** [transcriber.add_audio(audio)] *)
Definition transcriber_add_audio (audio : array_data sample) : W unit := fun w =>
  match stream_session w with
  | Some s =>
      let w' := set_trace (trace w ++ [Submitted audio]) w in
      match add_audio s audio with
      | (s', None) => (Ret tt, set_stream_session (Some s') w')
      | (s', Some e) => (Raise e, set_stream_session (Some s') w')
      end
  | None => (Raise (Exception (lit "streaming context is closed")), w)
  end.

(** [transcriber.result.text] *)
Definition transcriber_result_text : W str := fun w =>
  match stream_session w with
  | Some s =>
      (Ret (result_text s), set_trace (trace w ++ [ResultText (result_text s)]) w)
  | None => (Raise (Exception (lit "streaming context is closed")), w)
  end.

(** The [try] statement inside the loop (lines 64-86); [got] is how
    [audio_queue.get(timeout=0.1)] ends.  The stream is opened with
    [dtype=np.float32], so [astype(np.float32)] and [mx.array] change the
    container of the samples, not the samples. *)
Definition loop_body (got : M ndarray) : M unit :=
  try_except
    (audio_chunk ← got;
     audio_mx ← gets (fun st => contents (world st) audio_chunk);
     in_world (transcriber_add_audio audio_mx);;
     text ← in_world transcriber_result_text;
     cur ← gets (fun st => current_text (self st));
     if bool_decide (text ≠ cur)
     then modify (on_self (set_current_text text));;
          display_transcription
     else mret tt)
    (fun e =>
       match e with
       | Empty => Some (mret tt)
       | _ =>
           if is_Exception e
           then Some (in_world (print (lit "Transcription error: " ++ exn_str e)))
           else None
       end).

Definition set_pc (p : worker_pc) (st : State) : State :=
  on_self (fun o =>
    set_transcription_thread
      (match transcription_thread o with
       | Some t => Some {| daemon := daemon t; pc := p |}
       | None => None
       end) o) st.

Definition worker_at (st : State) : option worker_pc :=
  pc <$> transcription_thread (self st).

(** One turn of the loop for a worker that has waited [waited] ms in
    [get]: it goes on waiting, comes back to the loop test, or leaves the
    [with] block by an exception, which exits the streaming context. *)
Definition worker_turn (waited : nat) (st : State) : State :=
  match loop_body (queue_get waited) st with
  | (Blocked, st') => set_pc (WGet waited) st'
  | (Ret _, st') => set_pc WLoop st'
  | (Raise e, st') => set_pc (WRaised e) (snd (in_world exit_stream st'))
  end.

(** The worker thread runs until it is back at the loop test, waits in
    [get], or ends. *)
Definition worker_step (st : State) : State :=
  match worker_at st with
  | Some WReady =>
      set_pc WLoop
        (snd (in_world (print (lit "Starting transcription worker...");;
                        enter_stream) st))
  | Some WLoop =>
      if is_recording (self st) then worker_turn 0 st
      else set_pc WDone (snd (in_world exit_stream st))
  | Some (WGet waited) => worker_turn waited st
  | _ => st
  end.

(** *** What happens while the main thread waits *)

Inductive event :=
  | Callback (b : nat) (data : array_data sample) (status : str)
      (* the hardware fills its buffer [b] and calls [audio_callback] *)
  | WorkerStep
      (* the worker thread is scheduled *)
  | Elapse (ms : nat).
      (* time passes *)

Definition elapse (ms : nat) (st : State) : State :=
  let st' := on_world (fun w => set_uptime (uptime w + ms) w) st in
  match worker_at st' with
  | Some (WGet waited) => set_pc (WGet (waited + ms)) st'
  | _ => st'
  end.

Definition step (ev : event) (st : State) : State :=
  match ev with
  | Callback b data status =>
      if stream_open (world st)
      then snd (audio_callback b status
                  (on_world (fun w => set_hw (<[b := data]> (hw w)) w) st))
      else st
  | WorkerStep => worker_step st
  | Elapse ms => elapse ms st
  end.

Definition run (evs : list event) (st : State) : State :=
  foldl (fun s ev => step ev s) st evs.

(** The main thread waits at most [budget] ms, or until [done] holds,
    while [evs] happen; when [evs] ends early the rest of the time passes
    without event. *)
Fixpoint wait (done : State -> bool) (budget : nat) (evs : list event)
    (st : State) : State :=
  if done st then st else
  match evs with
  | [] => elapse budget st
  | Elapse ms :: evs' =>
      if budget <=? ms then elapse budget st
      else wait done (budget - ms) evs' (elapse ms st)
  | ev :: evs' => wait done budget evs' (step ev st)
  end.

(** [time.sleep(0.1)] *)
Definition sleep (evs : list event) : M unit :=
  modify (wait (fun _ => false) sleep_time evs).

(** [self.transcription_thread.join(timeout=2.0)] *)
Definition thread_ended (st : State) : bool :=
  match transcription_thread (self st) with
  | Some t => negb (is_alive t)
  | None => true
  end.

Definition join (evs : list event) : M unit :=
  modify (wait thread_ended join_timeout evs).

(** *** LiveTranscriber.stop_recording (lines 150-169) *)

(** Its second half, "Save final transcription" (lines 157-169). *)
Definition save_transcription : M unit :=
  text ← gets (fun st => current_text (self st));
  (if truthy (strip text)
   then
     d ← in_world now;
     let timestamp := strftime "%Y%m%d_%H%M%S" d in
     let filename := lit "lecture_transcription_" ++ timestamp ++ lit ".txt" in
     in_world (open_w filename);;
     d' ← in_world now;
     in_world (write filename
                 (lit "Lecture Transcription - "
                  ++ strftime "%Y-%m-%d %H:%M:%S" d' ++ [10%N]));;
     in_world (write filename (times (lit "=") 60 ++ [10%N; 10%N]));;
     text' ← gets (fun st => current_text (self st));
     in_world (write filename text');;
     in_world (print ([10%N; 0x1F4BE%N] ++ lit " Transcription saved to: "
                      ++ filename))
   else mret tt);;
  in_world (print ([10%N; 0x2705%N] ++ lit " Session ended")).

(** [during_join] is what the other threads do while the main thread is
    in [join]. *)
Definition stop_recording (during_join : list event) : M unit :=
  modify (on_self (set_is_recording false));;
  thread ← gets (fun st => transcription_thread (self st));
  (if thread is Some _ then join during_join else mret tt);;
  save_transcription.

(** *** LiveTranscriber.start_recording (lines 113-148) *)

(** What the surroundings do during one call of [start_recording]. *)
Record script := {
  startup : list event;        (* between [Thread.start] and the opening
                                  of the input stream *)
  open_error : option exn;     (* [sd.InputStream(...)] fails to open *)
  sleeps : list (list event);  (* during each [time.sleep(0.1)] *)
  cause : exn;                 (* what ends the last sleep *)
  during_join : list event     (* during [join(timeout=2.0)] *)
}.

(** [while self.is_recording: time.sleep(0.1)] (lines 140-141) *)
Fixpoint idle_loop (slots : list (list event)) (cause : exn) : M unit :=
  fun st =>
  if is_recording (self st) then
    match slots with
    | [] => (Raise cause, st)
    | evs :: slots' => idle_loop slots' cause (snd (sleep evs st))
    end
  else (Ret tt, st).

(** [with sd.InputStream(...): body] (lines 129-141) *)
Definition with_input_stream (err : option exn) (body : M unit) : M unit :=
  samplerate ← gets (fun st => sample_rate (self st));
  blocksize ← gets (fun st => chunk_size (self st));
  in_world (emit (OpenStream samplerate 1 blocksize));;
  match err with
  | Some e => raise e
  | None =>
      modify (on_world (set_stream_open true));;
      finally body
        (modify (on_world (set_stream_open false));;
         in_world (emit CloseStream))
  end.

Definition start_recording (sc : script) : M unit :=
  in_world (print (lit "Initializing audio capture..."));;
  rate ← gets (fun st => sample_rate (self st));
  in_world (print (lit "Sample rate: " ++ repr_int rate ++ lit " Hz"));;
  duration ← gets (fun st => chunk_duration (self st));
  in_world (print (lit "Chunk duration: " ++ repr_float duration
                   ++ lit " seconds"));;
  in_world (print []);;
  modify (on_self (set_is_recording true));;
  modify (on_self (set_transcription_thread
                     (Some {| daemon := false; pc := Unstarted |})));;
  modify (on_self (set_transcription_thread
                     (Some {| daemon := true; pc := Unstarted |})));;
  modify (set_pc WReady);;
  modify (run (startup sc));;
  finally
    (try_except
       (with_input_stream (open_error sc)
          (in_world (print ([0x1F3A4%N]
                            ++ lit " Recording started! Speak into your microphone..."));;
           display_transcription;;
           idle_loop (sleeps sc) (cause sc)))
       (fun e =>
          match e with
          | KeyboardInterrupt =>
              Some (in_world (print ([10%N; 10%N; 0x1F6D1%N]
                                     ++ lit " Recording stopped by user")))
          | _ =>
              if is_Exception e
              then Some (in_world (print ([10%N; 10%N; 0x274C%N]
                                          ++ lit " Error: " ++ exn_str e)))
              else None
          end))
    (stop_recording (during_join sc)).

(** *** LiveTranscriber.__init__ (lines 18-41)

    [load_error] is the exception [from_pretrained] raises, if any. *)
Definition init (model_name : str) (sample_rate : N) (chunk_duration : Q)
    (load_error : option exn) : W LiveTranscriber :=
  print (lit "Loading model: " ++ model_name);;
  emit (LoadModel model_name);;
  match load_error with
  | Some e => raise e
  | None =>
      mret {| model := model_name;
              sample_rate := sample_rate;
              chunk_duration := chunk_duration;
              chunk_size :=
                (let p := Qmult (inject_Z (Z.of_N sample_rate)) chunk_duration in
                 Z.quot (Qnum p) (Zpos (Qden p)));
              audio_queue := {| maxsize := 0; items := [] |};
              is_recording := false;
              transcription_thread := None;
              full_transcription := [];
              current_text := [] |}
  end.

(** *** main (lines 172-195) *)

Definition default_model : str := lit "mlx-community/parakeet-tdt-0.6b-v2".

(** The outcome of [main] and, when one was constructed, the object as
    [start_recording] left it. *)
Definition main (load_error : option exn) (sc : script)
    : World -> (result unit * World) * option LiveTranscriber := fun w0 =>
  let failed (e : exn) : W unit :=
    if is_Exception e
    then print ([0x274C%N] ++ lit " Failed to start transcription: " ++ exn_str e);;
         print (lit "Make sure you have a microphone connected and permissions enabled.")
    else raise e in
  let banner : W unit :=
    print ([0x1F393%N] ++ lit " Live Lecture Transcription");;
    print (lit "============================");;
    print [];;
    print (lit "Available audio devices:");;
    print query_devices;;
    print [] in
  match banner w0 with
  | (Ret _, w1) =>
      match init default_model 16000 1 load_error w1 with
      | (Ret transcriber, w2) =>
          match start_recording sc {| self := transcriber; world := w2 |} with
          | (Raise e, st) => (failed e (world st), Some (self st))
          | (r, st) => ((r, world st), Some (self st))
          end
      | (Raise e, w2) => (failed e w2, None)
      | (Blocked, w2) => ((Blocked, w2), None)
      end
  | other => (other, None)
  end.

(** The exit status of the process that runs [main()] as its last
    statement: 0 when [main] returns, not 0 when an exception leaves it;
    none when the main thread never ends. *)
Definition exit_code (r : result unit) : option Z :=
  match r with
  | Ret _ => Some 0%Z
  | Raise KeyboardInterrupt => Some 130%Z
  | Raise _ => Some 1%Z
  | Blocked => None
  end.

End Program.

Arguments LiveTranscriber : clear implicits.
Arguments World : clear implicits.
Arguments State : clear implicits.

(** ** A recognizer for running the model

    Its samples are code points and it "hears" them: the hypothesis is
    the concatenation of the frames received so far.  A frame that
    contains sample 0 makes [add_audio] raise: an [Exception] in
    [runtime], an exception outside [Exception] in [fatal]. *)
Module Fake.

Definition hear (err : exn) (s : str) (audio : array_data N) : str * option exn :=
  match audio with
  | Data1 xs => if bool_decide (0%N ∈ xs) then (s, Some err) else (s ++ xs, None)
  | Data2 _ _ => (s, Some (Exception (lit "bad shape")))
  end.

Definition wall (n : nat) : datetime :=
  {| year := 2024; month := 3; day := 9;
     hour := 14; minute := 5; second := n mod 60 |}.

Definition make (err : exn) : Runtime := {|
  sample := N;
  session := str;
  transcribe_stream := fun _ _ _ => [];
  add_audio := hear err;
  result_text := fun s => s;
  clock := wall;
  query_devices := lit "0 Built-in Microphone, Core Audio (1 in, 0 out)";
  repr_float := fun _ => lit "1.0"
|}.

Definition runtime : Runtime := make (Exception (lit "bad frame")).
Definition fatal : Runtime := make (BaseException (lit "fatal")).

Definition world0 {E : Runtime} : World E :=
  {| hw := ∅; arrays := []; stream_session := None; stream_open := false;
     fs := ∅; clock_reads := 0; uptime := 0; trace := [] |}.

(** One buffer of the mono stream, shape (n, 1), carrying [s]. *)
Definition mono (s : str) : array_data N := Data2 1 ((fun c => [c]) <$> s).

End Fake.


(** * Properties *)

Section Properties.
Context {E : Runtime}.

(* Text is computed on closed inputs only. *)
Opaque lit strip times strftime repr_int.

Ltac unfold_monad :=
  unfold mbind, mret, SE_bind, SE_ret, gets, modify, raise, in_world, zoom,
    print, print_end, emit in *.

(** ** The effect of each operation on the state *)

Definition log (l : list obs) (st : State E) : State E :=
  on_world (fun w => set_trace (trace w ++ l) w) st.

Lemma log_log (l1 l2 : list obs) (st : State E) :
  log l2 (log l1 st) = log (l1 ++ l2) st.
Proof.
  destruct st as [o w]. destruct w. unfold log, on_world, set_trace. simpl.
  by rewrite app_assoc.
Qed.

Definition with_items (l : list ndarray) (st : State E) : State E :=
  on_self (fun o => set_audio_queue
                      {| maxsize := maxsize (audio_queue o); items := l |} o) st.

Definition display_output (text : str) (t : datetime) : list obs :=
  [Printed ([27%N] ++ lit "[2J" ++ [27%N] ++ lit "[H");
   Printed (times (lit "=") 80 ++ [10%N]);
   Printed (([0x1F3A4%N] ++ lit " LIVE LECTURE TRANSCRIPTION - "
             ++ strftime "%H:%M:%S" t) ++ [10%N]);
   Printed (times (lit "=") 80 ++ [10%N]);
   Printed [10%N]]
  ++ (if truthy (strip text)
      then [Printed (lit "Current transcription:" ++ [10%N]);
            Printed (times (lit "-") 40 ++ [10%N]);
            Printed (text ++ [10%N]);
            Printed [10%N]]
      else [Printed (lit "Listening... (speak into your microphone)" ++ [10%N]);
            Printed [10%N]])
  ++ [Printed (times (lit "=") 80 ++ [10%N]);
      Printed (lit "Press Ctrl+C to stop recording" ++ [10%N]);
      Printed (times (lit "=") 80 ++ [10%N])].

(** The state after [display_transcription]. *)
Definition displayed (st : State E) : State E :=
  on_world (fun w => set_clock_reads (S (clock_reads w)) w)
    (log (Rendered (current_text (self st))
          :: display_output (current_text (self st))
               (clock (clock_reads (world st)))) st).

Ltac destruct_state st :=
  let o := fresh "o" in let w := fresh "w" in
  destruct st as [o w]; destruct o, w.

Lemma display_transcription_eq (st : State E) :
  display_transcription st = (Ret tt, displayed st).
Proof.
  destruct_state st. unfold display_transcription, displayed, display_output, log.
  unfold_monad. unfold now. simpl.
  destruct (truthy (strip current_text0)); simpl;
    rewrite <- ?app_assoc; reflexivity.
Qed.

(** What [display_transcription] sends out is console text only. *)
Definition printed_only (l : list obs) : Prop :=
  Forall (fun o => ∃ s, o = Printed s) l.

Lemma omap_printed_only {A} (f : obs → option A) l :
  (∀ s, f (Printed s) = None) → printed_only l → omap f l = [].
Proof.
  intros Hf. induction 1 as [|o l [s ->] _ IH]; [done|].
  simpl. by rewrite Hf.
Qed.

Lemma display_output_printed text t : printed_only (display_output text t).
Proof.
  unfold display_output, printed_only.
  destruct (truthy (strip text)); repeat constructor; eauto.
Qed.

Opaque display_output.

(** A projection of the trace that ignores console text ignores what
    [display_transcription] prints. *)
Ltac drop_display :=
  repeat match goal with
  | |- context [list_omap ?A ?B ?f (display_output ?t ?d)] =>
      change (list_omap A B f (display_output t d))
        with (omap f (display_output t d));
      rewrite (omap_printed_only f (display_output t d)
                 ltac:(done) (display_output_printed t d))
  | |- context [omap ?f (display_output ?t ?d)] =>
      rewrite (omap_printed_only f (display_output t d)
                 ltac:(done) (display_output_printed t d))
  end.

Definition with_session (s : option session) (st : State E) : State E :=
  on_world (set_stream_session s) st.

(** The worker is about to call [get], or is waiting in it since
    [waited] ms. *)
Definition in_get (st : State E) (waited : nat) : Prop :=
  (worker_at st = Some WLoop ∧ is_recording (self st) = true ∧ waited = 0)
  ∨ worker_at st = Some (WGet waited).

Definition error_line (e : exn) : obs :=
  Printed ((lit "Transcription error: " ++ exn_str e) ++ [10%N]).

Definition fixed_session : session := transcribe_stream (256, 256) 1 false.

(** Every way one scheduling of the worker can go. *)
Inductive worker_view (st : State E) : State E → Prop :=
  | wv_idle :
      (∀ p, worker_at st = Some p → p = Unstarted ∨ p = WDone ∨ ∃ e, p = WRaised e) →
      worker_view st st
  | wv_start :
      worker_at st = Some WReady →
      worker_view st
        (set_pc WLoop
           (with_session (Some fixed_session)
              (log [Printed (lit "Starting transcription worker..." ++ [10%N]);
                    Acquired (256, 256) 1 false] st)))
  | wv_exit :
      worker_at st = Some WLoop → is_recording (self st) = false →
      worker_view st (set_pc WDone (with_session None (log [Released] st)))
  | wv_wait w :
      in_get st w → items (audio_queue (self st)) = [] → w < get_timeout →
      worker_view st (set_pc (WGet w) st)
  | wv_timeout w :
      in_get st w → items (audio_queue (self st)) = [] → get_timeout ≤ w →
      worker_view st (set_pc WLoop st)
  | wv_closed w c rest :
      in_get st w → items (audio_queue (self st)) = c :: rest →
      stream_session (world st) = None →
      worker_view st
        (set_pc WLoop
           (log [error_line (Exception (lit "streaming context is closed"))]
              (with_items rest st)))
  | wv_same w c rest s s' :
      in_get st w → items (audio_queue (self st)) = c :: rest →
      stream_session (world st) = Some s →
      add_audio s (contents (world st) c) = (s', None) →
      result_text s' = current_text (self st) →
      worker_view st
        (set_pc WLoop
           (with_session (Some s')
              (log [Submitted (contents (world st) c); ResultText (result_text s')]
                 (with_items rest st))))
  | wv_changed w c rest s s' :
      in_get st w → items (audio_queue (self st)) = c :: rest →
      stream_session (world st) = Some s →
      add_audio s (contents (world st) c) = (s', None) →
      result_text s' ≠ current_text (self st) →
      worker_view st
        (set_pc WLoop
           (displayed
              (on_self (set_current_text (result_text s'))
                 (with_session (Some s')
                    (log [Submitted (contents (world st) c);
                          ResultText (result_text s')]
                       (with_items rest st))))))
  | wv_silent w c rest s s' :
      in_get st w → items (audio_queue (self st)) = c :: rest →
      stream_session (world st) = Some s →
      add_audio s (contents (world st) c) = (s', Some Empty) →
      worker_view st
        (set_pc WLoop
           (with_session (Some s')
              (log [Submitted (contents (world st) c)] (with_items rest st))))
  | wv_error w c rest s s' e :
      in_get st w → items (audio_queue (self st)) = c :: rest →
      stream_session (world st) = Some s →
      add_audio s (contents (world st) c) = (s', Some e) →
      is_Exception e = true → e ≠ Empty →
      worker_view st
        (set_pc WLoop
           (with_session (Some s')
              (log [Submitted (contents (world st) c); error_line e]
                 (with_items rest st))))
  | wv_fatal w c rest s s' e :
      in_get st w → items (audio_queue (self st)) = c :: rest →
      stream_session (world st) = Some s →
      add_audio s (contents (world st) c) = (s', Some e) →
      is_Exception e = false →
      worker_view st
        (set_pc (WRaised e)
           (with_session None
              (log [Submitted (contents (world st) c); Released]
                 (with_items rest st)))).

Lemma worker_turn_view (st : State E) w :
  in_get st w → worker_view st (worker_turn w st).
Proof.
  intros Hget. unfold worker_turn, loop_body, try_except, queue_get.
  unfold_monad.
  destruct (items (audio_queue (self st))) as [|c rest] eqn:Hq.
  - destruct (get_timeout <=? w) eqn:Hw; simpl.
    + apply (wv_timeout st w); auto. apply Nat.leb_le; assumption.
    + apply (wv_wait st w); auto. apply Nat.leb_gt; assumption.
  - unfold transcriber_add_audio, transcriber_result_text. simpl.
    destruct (stream_session (world st)) as [s|] eqn:Hs.
    + destruct (add_audio s (contents (world st) c)) as [s' [e|]] eqn:Ha; simpl.
      * destruct e; simpl.
        -- replace (set_pc _ _) with
             (set_pc (WRaised KeyboardInterrupt)
                (with_session None
                   (log [Submitted (contents (world st) c); Released]
                      (with_items rest st))))
             by (destruct_state st; simpl in *; rewrite <- ?app_assoc; reflexivity).
           eapply wv_fatal; eauto.
        -- replace (set_pc _ _) with
             (set_pc (WRaised (BaseException msg))
                (with_session None
                   (log [Submitted (contents (world st) c); Released]
                      (with_items rest st))))
             by (destruct_state st; simpl in *; rewrite <- ?app_assoc; reflexivity).
           eapply wv_fatal; eauto.
        -- replace (set_pc _ _) with
             (set_pc WLoop
                (with_session (Some s')
                   (log [Submitted (contents (world st) c)] (with_items rest st))))
             by (destruct_state st; simpl in *; reflexivity).
           eapply wv_silent; eauto.
        -- replace (set_pc _ _) with
             (set_pc WLoop
                (with_session (Some s')
                   (log [Submitted (contents (world st) c);
                         error_line (IndexError msg)]
                      (with_items rest st))))
             by (destruct_state st; simpl in *; rewrite <- ?app_assoc; reflexivity).
           eapply wv_error; eauto.
        -- replace (set_pc _ _) with
             (set_pc WLoop
                (with_session (Some s')
                   (log [Submitted (contents (world st) c);
                         error_line (Exception msg)]
                      (with_items rest st))))
             by (destruct_state st; simpl in *; rewrite <- ?app_assoc; reflexivity).
           eapply wv_error; eauto.
      * case_bool_decide as Hne; simpl.
        -- rewrite display_transcription_eq.
           replace (set_pc _ _) with
             (set_pc WLoop
                (displayed
                   (on_self (set_current_text (result_text s'))
                      (with_session (Some s')
                         (log [Submitted (contents (world st) c);
                               ResultText (result_text s')]
                            (with_items rest st))))))
             by (destruct_state st; simpl in *; unfold displayed; simpl;
                 rewrite <- ?app_assoc; reflexivity).
           eapply wv_changed; eauto.
        -- replace (set_pc _ _) with
             (set_pc WLoop
                (with_session (Some s')
                   (log [Submitted (contents (world st) c);
                         ResultText (result_text s')]
                      (with_items rest st))))
             by (destruct_state st; simpl in *; rewrite <- ?app_assoc; reflexivity).
           eapply wv_same; eauto.
    + replace (set_pc _ _) with
        (set_pc WLoop
           (log [error_line (Exception (lit "streaming context is closed"))]
              (with_items rest st)))
        by (destruct_state st; simpl in *; reflexivity).
      eapply wv_closed; eauto.
Qed.

Lemma worker_step_view (st : State E) : worker_view st (worker_step st).
Proof.
  unfold worker_step.
  destruct (worker_at st) as [[| | |w| |e]|] eqn:Hpc.
  - apply wv_idle. intros p Hp. rewrite Hpc in Hp. injection Hp as <-. auto.
  - replace (set_pc _ _) with
      (set_pc WLoop
         (with_session (Some fixed_session)
            (log [Printed (lit "Starting transcription worker..." ++ [10%N]);
                  Acquired (256, 256) 1 false] st)))
      by (destruct_state st; unfold enter_stream; unfold_monad; simpl;
          rewrite <- ?app_assoc; reflexivity).
    apply wv_start; assumption.
  - destruct (is_recording (self st)) eqn:Hr.
    + apply worker_turn_view. left. auto.
    + replace (set_pc _ _) with
        (set_pc WDone (with_session None (log [Released] st)))
        by (destruct_state st; unfold exit_stream; unfold_monad; reflexivity).
      apply wv_exit; assumption.
  - apply worker_turn_view. right. assumption.
  - apply wv_idle. intros p Hp. rewrite Hpc in Hp. injection Hp as <-. auto.
  - apply wv_idle. intros p Hp. rewrite Hpc in Hp. injection Hp as <-. eauto.
  - apply wv_idle. intros p Hp. rewrite Hpc in Hp. discriminate.
Qed.

(** A buffer has a channel 0 to select. *)
Definition has_channel0 (d : array_data sample) : bool :=
  match d with
  | Data2 0 _ => false
  | _ => true
  end.

Definition status_line (status : str) : list obs :=
  if truthy status
  then [Printed ((lit "Audio status: " ++ status) ++ [10%N])]
  else [].

Definition with_hw (b : nat) (d : array_data sample) (st : State E) : State E :=
  on_world (fun w => set_hw (<[b := d]> (hw w)) w) st.

Definition alloc (d : array_data sample) (st : State E) : State E :=
  on_world (fun w => set_arrays (arrays w ++ [d]) w) st.

(** The state after the hardware delivered [data] in its buffer [b],
    for a queue that has room. *)
Definition delivered (b : nat) (data : array_data sample) (status : str)
    (st : State E) : State E :=
  if has_channel0 data
  then with_items (items (audio_queue (self st))
                   ++ [Owned (length (arrays (world st)))])
         (alloc (channel0 data) (log (status_line status) (with_hw b data st)))
  else log (status_line status) (with_hw b data st).

Lemma step_callback (st : State E) b data status :
  stream_open (world st) = true →
  maxsize (audio_queue (self st)) = 0 →
  step (Callback b data status) st = delivered b data status st.
Proof.
  intros Hopen Hmax. unfold step. rewrite Hopen.
  unfold delivered, audio_callback, status_line.
  unfold_monad. unfold queue_put, copy, column0, ndim, full.
  destruct_state st. destruct audio_queue0 as [m q]. simpl in *. subst.
  destruct (truthy status); simpl; rewrite ?lookup_total_insert_eq;
    destruct data as [xs|[|c] rows];
    repeat (progress (simpl; rewrite ?lookup_total_insert_eq));
    unfold with_items, alloc, log, with_hw, on_world, on_self; simpl;
    rewrite ?app_nil_r; reflexivity.
Qed.

Lemma step_callback_closed (st : State E) b data status :
  stream_open (world st) = false → step (Callback b data status) st = st.
Proof. intros Hopen. unfold step. rewrite Hopen. reflexivity. Qed.

(** ** Invariants of the running system *)

Definition in_loop (st : State E) : Prop :=
  worker_at st = Some WLoop ∨ ∃ w, worker_at st = Some (WGet w).

(** The queue is the one [__init__] made, it holds arrays that own their
    memory, and a worker inside the loop has its streaming context. *)
Record Inv (st : State E) : Prop := {
  inv_unbounded : maxsize (audio_queue (self st)) = 0;
  inv_owned : ∀ c, c ∈ items (audio_queue (self st)) →
              ∃ a, c = Owned a ∧ a < length (arrays (world st));
  inv_session : in_loop st → is_Some (stream_session (world st))
}.

Lemma worker_at_set_pc (st : State E) p :
  worker_at (set_pc p st) = match worker_at st with Some _ => Some p | None => None end.
Proof.
  unfold worker_at, set_pc. simpl. destruct (transcription_thread (self st)); reflexivity.
Qed.

Lemma in_get_in_loop (st : State E) w : in_get st w → in_loop st.
Proof. intros [(? & _)|?]; [left|right]; eauto. Qed.

Lemma in_get_some (st : State E) w : in_get st w → is_Some (worker_at st).
Proof. intros [(-> & _)| ->]; eauto. Qed.

Lemma elapse_eq (st : State E) ms :
  elapse ms st =
    match worker_at st with
    | Some (WGet w) =>
        set_pc (WGet (w + ms)) (on_world (fun w => set_uptime (uptime w + ms) w) st)
    | _ => on_world (fun w => set_uptime (uptime w + ms) w) st
    end.
Proof. reflexivity. Qed.

Ltac worker_cases st :=
  destruct (worker_step_view st) as
    [Hidle|Hpc|Hpc Hr|w Hg Hq Hw|w Hg Hq Hw|w c rest Hg Hq Hs
    |w c rest s s' Hg Hq Hs Ha Ht|w c rest s s' Hg Hq Hs Ha Ht
    |w c rest s s' Hg Hq Hs Ha|w c rest s s' e Hg Hq Hs Ha He Hne
    |w c rest s s' e Hg Hq Hs Ha He].

Lemma Inv_worker_step (st : State E) : Inv st → Inv (worker_step st).
Proof.
  intros [Hmax Hown Hses].
  worker_cases st; (split; simpl; [assumption | | ]);
    try assumption;
    try (rewrite Hq in Hown; intros c' Hc'; apply Hown; set_solver);
    try (intros _; simpl; eauto; fail);
    try (unfold in_loop; rewrite !worker_at_set_pc; simpl;
         destruct (worker_at _); intros [|[? ?]]; congruence);
    intros _; apply Hses; eapply in_get_in_loop; eauto.
Qed.

Lemma stream_open_worker_step (st : State E) :
  stream_open (world (worker_step st)) = stream_open (world st).
Proof. destruct (worker_step_view st); reflexivity. Qed.

Lemma stream_open_elapse (st : State E) ms :
  stream_open (world (elapse ms st)) = stream_open (world st).
Proof. rewrite elapse_eq. destruct (worker_at st) as [[]|]; reflexivity. Qed.

Lemma stream_open_step (st : State E) ev :
  stream_open (world (step ev st)) = stream_open (world st).
Proof.
  destruct ev as [b data status| |ms].
  - unfold step. destruct (stream_open (world st)) eqn:Hopen; [|assumption].
    unfold audio_callback. unfold_monad. unfold queue_put, copy, column0, ndim.
    destruct_state st. simpl in *.
    destruct (truthy status); simpl; rewrite ?lookup_total_insert_eq;
      destruct data as [xs|[|c] rows]; simpl;
      rewrite ?lookup_total_insert_eq; simpl;
      try destruct (full audio_queue0); simpl; assumption.
  - apply stream_open_worker_step.
  - apply stream_open_elapse.
Qed.

Lemma Inv_elapse (st : State E) ms : Inv st → Inv (elapse ms st).
Proof.
  intros [Hmax Hown Hses]. rewrite elapse_eq.
  destruct (worker_at st) as [[| | |w| |e]|] eqn:Hpc;
    (split; simpl; [assumption|assumption|]);
    try (intros [H|[w' H]]; rewrite ?worker_at_set_pc in H;
         apply Hses; unfold in_loop; rewrite Hpc; eauto; fail).
  all: intros [H|[w' H]]; unfold worker_at in *; simpl in *; congruence.
Qed.

Lemma Inv_delivered (st : State E) b data status :
  Inv st → Inv (delivered b data status st).
Proof.
  intros [Hmax Hown Hses]. unfold delivered.
  destruct (has_channel0 data); split; simpl; auto.
  intros c [Hc|Hc]%elem_of_app.
  - destruct (Hown c Hc) as (a & -> & Ha). exists a. split; [done|].
    rewrite length_app. simpl. lia.
  - apply list_elem_of_singleton in Hc as ->. eexists. split; [done|].
    rewrite !length_app. simpl. lia.
Qed.

Lemma Inv_step (st : State E) ev : Inv st → Inv (step ev st).
Proof.
  intros HI. destruct ev as [b data status| |ms].
  - destruct (stream_open (world st)) eqn:Hopen.
    + rewrite step_callback by (assumption || apply HI). by apply Inv_delivered.
    + by rewrite step_callback_closed.
  - by apply Inv_worker_step.
  - by apply Inv_elapse.
Qed.

Lemma run_snoc (st : State E) evs ev : run (evs ++ [ev]) st = step ev (run evs st).
Proof. unfold run. by rewrite foldl_app. Qed.

Lemma run_app (st : State E) evs evs' : run (evs ++ evs') st = run evs' (run evs st).
Proof. unfold run. by rewrite foldl_app. Qed.

Lemma run_cons (st : State E) ev evs : run (ev :: evs) st = run evs (step ev st).
Proof. reflexivity. Qed.

Lemma Inv_run (st : State E) evs : Inv st → Inv (run evs st).
Proof.
  revert st. induction evs as [|ev evs IH]; intros st HI; [done|].
  rewrite run_cons. apply IH. by apply Inv_step.
Qed.

Lemma stream_open_run (st : State E) evs :
  stream_open (world (run evs st)) = stream_open (world st).
Proof.
  revert st. induction evs as [|ev evs IH]; intros st; [done|].
  rewrite run_cons, IH. apply stream_open_step.
Qed.

(** ** First in, first out *)

Definition submission (o : obs) : option (array_data sample) :=
  match o with Submitted a => Some a | _ => None end.

(** The frames handed to the recognizer so far, in order. *)
Definition submitted (st : State E) : list (array_data sample) :=
  omap submission (trace (world st)).

(** The frames waiting in the queue, oldest first. *)
Definition pending (st : State E) : list (array_data sample) :=
  contents (world st) <$> items (audio_queue (self st)).

(** The frames the callback has to enqueue for a schedule: channel 0 of
    every buffer delivered. *)
Definition enqueued (evs : list event) : list (array_data sample) :=
  omap (fun ev =>
          match ev with
          | Callback _ data _ =>
              if has_channel0 data then Some (channel0 data) else None
          | _ => None
          end) evs.

Lemma submission_display_output text t : omap submission (display_output text t) = [].
Proof. by apply omap_printed_only, display_output_printed. Qed.

Lemma submission_status_line status : omap submission (status_line status) = [].
Proof. unfold status_line. destruct (truthy status); reflexivity. Qed.

Lemma pending_owned (st : State E) (w' : World E) :
  (∀ c, c ∈ items (audio_queue (self st)) →
        ∃ a, c = Owned a ∧ a < length (arrays (world st))) →
  (∃ l, arrays w' = arrays (world st) ++ l) →
  contents w' <$> items (audio_queue (self st)) = pending st.
Proof.
  intros Hown [l Hl]. unfold pending. apply list_fmap_ext.
  intros i c Hc. apply list_elem_of_lookup_2 in Hc.
  destruct (Hown c Hc) as (a & -> & Ha). simpl.
  rewrite Hl. by apply lookup_total_app_l.
Qed.

Lemma fifo_worker_step (st : State E) :
  Inv st →
  submitted (worker_step st) ++ pending (worker_step st)
  = submitted st ++ pending st.
Proof.
  intros [Hmax Hown Hses]. unfold submitted, pending.
  worker_cases st; simpl; rewrite ?omap_app; simpl; drop_display;
    rewrite ?app_nil_r; try reflexivity;
    try (rewrite Hq; simpl; rewrite <- ?app_assoc; reflexivity).
  exfalso. destruct (Hses (in_get_in_loop _ _ Hg)) as [? ?]. congruence.
Qed.

Lemma fifo_elapse (st : State E) ms :
  submitted (elapse ms st) = submitted st ∧ pending (elapse ms st) = pending st.
Proof. rewrite elapse_eq. destruct (worker_at st) as [[]|]; done. Qed.

Lemma fifo_delivered (st : State E) b data status :
  Inv st →
  submitted (delivered b data status st) ++ pending (delivered b data status st)
  = submitted st ++ pending st ++ enqueued [Callback b data status].
Proof.
  intros [Hmax Hown Hses]. unfold delivered, enqueued. simpl.
  destruct (has_channel0 data); unfold submitted; simpl;
    rewrite omap_app, submission_status_line, !app_nil_r; f_equal.
  - unfold pending at 1. simpl. rewrite fmap_app. f_equal.
    + apply (pending_owned st); [done|]. simpl. eauto.
    + simpl. by rewrite list_lookup_total_middle.
  - apply (pending_owned st); [done|]. exists []. simpl. by rewrite app_nil_r.
Qed.

Lemma fifo_step (st : State E) ev :
  Inv st → stream_open (world st) = true →
  submitted (step ev st) ++ pending (step ev st)
  = submitted st ++ pending st ++ enqueued [ev].
Proof.
  intros HI Hopen. destruct ev as [b data status| |ms].
  - rewrite step_callback by (assumption || apply HI). by apply fifo_delivered.
  - simpl. rewrite app_nil_r. by apply fifo_worker_step.
  - simpl. rewrite app_nil_r. by destruct (fifo_elapse st ms) as [-> ->].
Qed.

Lemma enqueued_cons ev evs : enqueued (ev :: evs) = enqueued [ev] ++ enqueued evs.
Proof. unfold enqueued. simpl. by destruct ev as [? [|[]] ?| |]. Qed.

Lemma fifo_run (st : State E) evs :
  Inv st → stream_open (world st) = true →
  submitted (run evs st) ++ pending (run evs st)
  = submitted st ++ pending st ++ enqueued evs.
Proof.
  revert st. induction evs as [|ev evs IH]; intros st HI Hopen.
  - simpl. by rewrite app_nil_r.
  - rewrite run_cons, IH by (by apply Inv_step || by rewrite stream_open_step).
    rewrite (app_assoc (submitted _)), fifo_step by done.
    rewrite (enqueued_cons ev evs). by rewrite <- !app_assoc.
Qed.

(** A recognizer whose failures are all in the [Exception] hierarchy. *)
Definition raises_only_exceptions : Prop :=
  ∀ s a s' e, add_audio s a = (s', Some e) → is_Exception e = true.

Lemma is_recording_worker_step (st : State E) :
  is_recording (self (worker_step st)) = is_recording (self st).
Proof. destruct (worker_step_view st); reflexivity. Qed.

Lemma is_recording_step (st : State E) ev :
  is_recording (self (step ev st)) = is_recording (self st).
Proof.
  destruct ev as [b data status| |ms].
  - unfold step. destruct (stream_open (world st)); [|done].
    unfold audio_callback. unfold_monad. unfold queue_put, copy, column0, ndim.
    destruct_state st. simpl in *.
    destruct (truthy status); simpl; rewrite ?lookup_total_insert_eq;
      destruct data as [xs|[|c] rows]; simpl;
      rewrite ?lookup_total_insert_eq; simpl;
      try destruct (full audio_queue0); reflexivity.
  - apply is_recording_worker_step.
  - simpl. rewrite elapse_eq. destruct (worker_at st) as [[]|]; reflexivity.
Qed.

Lemma is_recording_run (st : State E) evs :
  is_recording (self (run evs st)) = is_recording (self st).
Proof.
  revert st. induction evs as [|ev evs IH]; intros st; [done|].
  rewrite run_cons, IH. apply is_recording_step.
Qed.

Lemma in_loop_in_get (st : State E) :
  in_loop st → is_recording (self st) = true → ∃ w, in_get st w.
Proof. intros [H|[w H]] Hr; [exists 0; left|exists w; right]; auto. Qed.

(** While recording, a worker inside the loop takes the oldest frame at
    each scheduling and stays inside the loop. *)
Ltac pc_simpl st :=
  unfold in_loop, in_get, worker_at in *; simpl in *;
  destruct (transcription_thread (self st)) as [[? ?]|]; simpl in *.

Lemma worker_step_takes (st : State E) x xs :
  raises_only_exceptions → Inv st →
  is_recording (self st) = true → in_loop st →
  items (audio_queue (self st)) = x :: xs →
  items (audio_queue (self (worker_step st))) = xs
  ∧ submitted (worker_step st) = submitted st ++ [contents (world st) x]
  ∧ in_loop (worker_step st).
Proof.
  intros Hexn HI Hrec Hloop Hitems. unfold submitted.
  worker_cases st; simpl; rewrite ?omap_app; simpl; drop_display;
    rewrite ?app_nil_r; try congruence;
    try (rewrite Hq in Hitems; simplify_eq; pc_simpl st; naive_solver).
  - pc_simpl st; [|naive_solver].
    destruct Hloop as [?|[? ?]]; simplify_eq;
      by destruct (Hidle _ eq_refl) as [|[|[]]].
  - pc_simpl st; naive_solver.
  - exfalso. destruct (inv_session _ HI (in_get_in_loop _ _ Hg)) as [? ?].
    congruence.
  - apply Hexn in Ha. congruence.
Qed.

Lemma worker_step_empty (st : State E) :
  is_recording (self st) = true → in_loop st →
  items (audio_queue (self st)) = [] →
  items (audio_queue (self (worker_step st))) = []
  ∧ submitted (worker_step st) = submitted st
  ∧ in_loop (worker_step st).
Proof.
  intros Hrec Hloop Hitems. unfold submitted.
  worker_cases st; simpl; try congruence; pc_simpl st; naive_solver.
Qed.

Lemma drain_loop (k : nat) (st : State E) :
  raises_only_exceptions → Inv st →
  is_recording (self st) = true → in_loop st →
  length (items (audio_queue (self st))) ≤ k →
  items (audio_queue (self (run (replicate k WorkerStep) st))) = []
  ∧ submitted (run (replicate k WorkerStep) st) = submitted st ++ pending st
  ∧ in_loop (run (replicate k WorkerStep) st).
Proof.
  intros Hexn. revert st.
  induction k as [|k IH]; intros st HI Hrec Hloop Hk.
  - change (run (replicate 0 WorkerStep) st) with st.
    destruct (items (audio_queue (self st))) eqn:Hq; simpl in Hk; [|lia].
    unfold pending. rewrite Hq. simpl. by rewrite app_nil_r.
  - change (replicate (S k) WorkerStep) with (WorkerStep :: replicate k WorkerStep).
    rewrite run_cons. change (step WorkerStep st) with (worker_step st).
    destruct (items (audio_queue (self st))) as [|x xs] eqn:Hq.
    + destruct (worker_step_empty st Hrec Hloop Hq) as (Hq' & Hs' & Hl').
      destruct (IH (worker_step st)) as (? & Hsub & ?);
        [by apply Inv_worker_step|by rewrite is_recording_worker_step|done
        |rewrite Hq'; simpl; lia|].
      split_and!; [done| |done].
      rewrite Hsub, Hs'. unfold pending. by rewrite Hq, Hq'.
    + destruct (worker_step_takes st x xs Hexn HI Hrec Hloop Hq) as (Hq' & Hs' & Hl').
      destruct (IH (worker_step st)) as (? & Hsub & ?);
        [by apply Inv_worker_step|by rewrite is_recording_worker_step|done
        |rewrite Hq'; simpl in Hk; lia|].
      split_and!; [done| |done].
      rewrite Hsub, Hs', <- app_assoc. f_equal.
      pose proof (fifo_worker_step st HI) as Hf.
      rewrite Hs', <- app_assoc in Hf. apply app_inv_head in Hf.
      exact Hf.
Qed.

(** The worker thread is started and has not ended. *)
Definition live (st : State E) : Prop :=
  worker_at st = Some WReady ∨ in_loop st.

Lemma worker_at_delivered (st : State E) b data status :
  worker_at (delivered b data status st) = worker_at st.
Proof. unfold delivered. by destruct (has_channel0 data). Qed.

Lemma in_loop_step (st : State E) ev :
  raises_only_exceptions → Inv st → is_recording (self st) = true →
  in_loop st → in_loop (step ev st).
Proof.
  intros Hexn HI Hrec Hloop. destruct ev as [b data status| |ms].
  - unfold in_loop. destruct (stream_open (world st)) eqn:Hopen.
    + rewrite step_callback by (assumption || apply HI).
      by rewrite worker_at_delivered.
    + by rewrite step_callback_closed.
  - change (step WorkerStep st) with (worker_step st).
    destruct (items (audio_queue (self st))) as [|x xs] eqn:Hq.
    + by apply worker_step_empty.
    + by eapply worker_step_takes.
  - simpl. rewrite elapse_eq. destruct Hloop as [H|[w H]]; rewrite H.
    + left. exact H.
    + right. exists (w + ms). rewrite worker_at_set_pc.
      change (worker_at (on_world _ st)) with (worker_at st). by rewrite H.
Qed.

Lemma live_step (st : State E) ev :
  raises_only_exceptions → Inv st → is_recording (self st) = true →
  live st → live (step ev st).
Proof.
  intros Hexn HI Hrec [Hready|Hloop]; [|right; by apply in_loop_step].
  destruct ev as [b data status| |ms].
  - left. destruct (stream_open (world st)) eqn:Hopen.
    + rewrite step_callback by (assumption || apply HI).
      by rewrite worker_at_delivered.
    + by rewrite step_callback_closed.
  - right. change (step WorkerStep st) with (worker_step st).
    worker_cases st; pc_simpl st; naive_solver.
  - left. simpl. rewrite elapse_eq. by rewrite Hready.
Qed.

Lemma live_run (st : State E) evs :
  raises_only_exceptions → Inv st → is_recording (self st) = true →
  live st → live (run evs st).
Proof.
  intros Hexn. revert st. induction evs as [|ev evs IH]; intros st HI Hrec Hl; [done|].
  rewrite run_cons. apply IH; [by apply Inv_step|by rewrite is_recording_step|].
  by apply live_step.
Qed.

Lemma drain_live (k : nat) (st : State E) :
  raises_only_exceptions → Inv st →
  is_recording (self st) = true → live st →
  length (items (audio_queue (self st))) ≤ k →
  pending (run (replicate (S k) WorkerStep) st) = []
  ∧ submitted (run (replicate (S k) WorkerStep) st) = submitted st ++ pending st.
Proof.
  intros Hexn HI Hrec [Hready|Hloop] Hk.
  - change (replicate (S k) WorkerStep) with (WorkerStep :: replicate k WorkerStep).
    rewrite run_cons. change (step WorkerStep st) with (worker_step st).
    assert (Hstart : items (audio_queue (self (worker_step st)))
                     = items (audio_queue (self st))
                     ∧ submitted (worker_step st) = submitted st
                     ∧ pending (worker_step st) = pending st
                     ∧ in_loop (worker_step st)).
    { unfold submitted, pending.
      worker_cases st;
        try (destruct Hg as [(Hg & _)|Hg]; congruence); try congruence.
      - destruct (Hidle _ Hready) as [|[|[]]]; done.
      - simpl. rewrite omap_app, app_nil_r. split_and!; try done.
        left. rewrite worker_at_set_pc.
        change (worker_at (with_session _ _)) with (worker_at st).
        by rewrite Hready. }
    destruct Hstart as (Hq' & Hs' & Hp' & Hl').
    destruct (drain_loop k (worker_step st)) as (Hq & Hsub & _);
      [done|by apply Inv_worker_step|by rewrite is_recording_worker_step|done
      |by rewrite Hq'|].
    unfold pending at 1. rewrite Hq, Hsub, Hs', Hp'. done.
  - destruct (drain_loop (S k) st) as (Hq & Hsub & _); [done..|lia|].
    unfold pending at 1. by rewrite Hq, Hsub.
Qed.

(** C1. Frames reach the recognizer in the order the callback enqueued
    them, each once, none dropped or reordered, however the callback, the
    worker and the passing of time interleave: at every moment the frames
    submitted so far followed by the frames waiting in the queue are
    exactly the frames enqueued, in order, the queue holding as many as
    the worker is behind.  And while the session is recording, a worker
    that is scheduled once more than there are frames waiting has
    submitted every one of them. *)
Theorem fifo_delivery (st : State E) (evs : list event) (k : nat) :
  Inv st →
  stream_open (world st) = true →
  is_recording (self st) = true →
  live st →
  raises_only_exceptions →
  length (pending (run evs st)) ≤ k →
  submitted (run evs st) ++ pending (run evs st)
    = submitted st ++ pending st ++ enqueued evs
  ∧ length (submitted (run evs st)) + length (pending (run evs st))
    = length (submitted st) + length (pending st) + length (enqueued evs)
  ∧ submitted (run (replicate (S k) WorkerStep) (run evs st))
    = submitted st ++ pending st ++ enqueued evs
  ∧ pending (run (replicate (S k) WorkerStep) (run evs st)) = [].
Proof.
  intros HI Hopen Hrec Hlive Hexn Hk.
  pose proof (fifo_run st evs HI Hopen) as Hfifo.
  destruct (drain_live k (run evs st)) as (Hq & Hsub);
    [done|by apply Inv_run|by rewrite is_recording_run|by apply live_run
    |unfold pending in Hk; by rewrite length_fmap in Hk|].
  split_and!; [done| |by rewrite Hsub, Hfifo|done].
  apply (f_equal length) in Hfifo. rewrite !length_app in Hfifo. lia.
Qed.

(** ** Rendering on change *)

Definition rendering (o : obs) : option str :=
  match o with Rendered t => Some t | _ => None end.

(** The texts [display_transcription] was called with, in order. *)
Definition rendered (st : State E) : list str :=
  omap rendering (trace (world st)).

Definition result_read (o : obs) : option str :=
  match o with ResultText t => Some t | _ => None end.

(** The hypotheses the worker read from the recognizer, in order. *)
Definition hypotheses (st : State E) : list str :=
  omap result_read (trace (world st)).

(** The hypotheses that differ from the text rendered last, [shown]
    being the text rendered before the first of them. *)
Fixpoint changes (shown : str) (hs : list str) : list str :=
  match hs with
  | [] => []
  | h :: hs' =>
      if bool_decide (h ≠ shown) then h :: changes h hs' else changes shown hs'
  end.


Lemma callback_quiet (st : State E) b data status :
  current_text (self (step (Callback b data status) st)) = current_text (self st)
  ∧ ∃ l, trace (world (step (Callback b data status) st)) = trace (world st) ++ l
         ∧ printed_only l.
Proof.
  unfold step. destruct (stream_open (world st));
    [|split; [done|exists []; split; [by rewrite app_nil_r|constructor]]].
  unfold audio_callback. unfold_monad. unfold queue_put, copy, column0, ndim.
  destruct_state st. simpl in *.
  destruct (truthy status); simpl; rewrite ?lookup_total_insert_eq;
    destruct data as [xs|[|c] rows]; simpl;
    rewrite ?lookup_total_insert_eq; simpl;
    try destruct (full audio_queue0); simpl;
    (split; [done|]);
    first [ exists []; split; [by rewrite app_nil_r|constructor]
          | eexists; split; [done|]; repeat constructor; eauto ].
Qed.

Lemma render_step (st : State E) ev :
  ∃ hs, hypotheses (step ev st) = hypotheses st ++ hs
        ∧ rendered (step ev st) = rendered st ++ changes (current_text (self st)) hs
        ∧ current_text (self (step ev st)) = default (current_text (self st)) (last hs).
Proof.
  unfold hypotheses, rendered. destruct ev as [b data status| |ms].
  - destruct (callback_quiet st b data status) as (-> & l & -> & Hl).
    exists []. rewrite !omap_app.
    rewrite (omap_printed_only result_read l), (omap_printed_only rendering l)
      by done.
    by rewrite !app_nil_r.
  - change (step WorkerStep st) with (worker_step st).
    worker_cases st; simpl; rewrite ?omap_app; simpl; drop_display;
      try (exists []; by rewrite ?app_nil_r).
    + exists [result_text s']. simpl. rewrite Ht.
      case_bool_decide as Hne; [by destruct Hne|done].
    + exists [result_text s']. simpl.
      rewrite bool_decide_true by done. by rewrite !app_nil_r.
  - simpl. rewrite elapse_eq. exists [].
    destruct (worker_at st) as [[]|]; simpl; by rewrite !app_nil_r.
Qed.


(** ** A failing frame *)

Lemma worker_step_error (st : State E) x xs ses ses' err :
  is_recording (self st) = true →
  in_loop st →
  items (audio_queue (self st)) = x :: xs →
  stream_session (world st) = Some ses →
  add_audio ses (contents (world st) x) = (ses', Some err) →
  is_Exception err = true →
  err ≠ Empty →
  worker_step st
  = set_pc WLoop
      (with_session (Some ses')
         (log [Submitted (contents (world st) x); error_line err]
            (with_items xs st))).
Proof.
  intros Hrec Hloop Hitems Hses Hadd Hexc Hnot.
  worker_cases st; try (rewrite Hq in Hitems); simplify_eq;
    try (destruct Hloop as [Hl|[? Hl]]; congruence);
    try (rewrite Hadd in Ha; simplify_eq; try done; congruence).
  destruct Hloop as [Hl|[? Hl]]; by destruct (Hidle _ Hl) as [|[|[]]].
Qed.

Lemma worker_step_swallowed (st : State E) x xs ses ses' :
  is_recording (self st) = true →
  in_loop st →
  items (audio_queue (self st)) = x :: xs →
  stream_session (world st) = Some ses →
  add_audio ses (contents (world st) x) = (ses', Some Empty) →
  worker_step st
  = set_pc WLoop
      (with_session (Some ses')
         (log [Submitted (contents (world st) x)] (with_items xs st))).
Proof.
  intros Hrec Hloop Hitems Hses Hadd.
  worker_cases st; try (rewrite Hq in Hitems); simplify_eq;
    try (destruct Hloop as [Hl|[? Hl]]; congruence);
    try (rewrite Hadd in Ha; simplify_eq; try done; congruence).
  destruct Hloop as [Hl|[? Hl]]; by destruct (Hidle _ Hl) as [|[|[]]].
Qed.

(** What the handlers of the worker loop print for an [Exception]:
    nothing for [queue.Empty], which the first handler takes, the error
    line for any other. *)
Definition logged (err : exn) : list obs :=
  match err with
  | Empty => []
  | _ => [error_line err]
  end.

(** C3, as the code has it.  When the recognizer raises an [Exception]
    on a frame while the session is recording, the worker catches it and
    is back at the loop test: the session is still recording, the
    transcript and what was rendered are unchanged, only that frame left
    the queue, and the frames behind it are all submitted, in order, by
    the next schedulings of the worker.  The error line is printed,
    unless the exception is [queue.Empty]: the handler meant for the
    timeout of [get] covers the whole [try] block and takes it without
    printing. *)
Theorem frame_error_contained (st : State E) (x : ndarray) (xs : list ndarray)
    (ses ses' : session) (err : exn) (k : nat) :
  Inv st →
  is_recording (self st) = true →
  in_loop st →
  items (audio_queue (self st)) = x :: xs →
  stream_session (world st) = Some ses →
  add_audio ses (contents (world st) x) = (ses', Some err) →
  is_Exception err = true →
  raises_only_exceptions →
  length xs ≤ k →
  trace (world (worker_step st))
    = trace (world st) ++ Submitted (contents (world st) x) :: logged err
  ∧ (err ≠ Empty → logged err = [error_line err])
  ∧ (err = Empty → logged err = [])
  ∧ worker_at (worker_step st) = Some WLoop
  ∧ is_recording (self (worker_step st)) = true
  ∧ current_text (self (worker_step st)) = current_text (self st)
  ∧ rendered (worker_step st) = rendered st
  ∧ items (audio_queue (self (worker_step st))) = xs
  ∧ stream_session (world (worker_step st)) = Some ses'
  ∧ submitted (run (replicate k WorkerStep) (worker_step st))
    = submitted st ++ pending st
  ∧ in_loop (run (replicate k WorkerStep) (worker_step st)).
Proof.
  intros HI Hrec Hloop Hitems Hses Hadd Hexc Hexn Hk.
  destruct (worker_step_takes st x xs Hexn HI Hrec Hloop Hitems)
    as (Hq' & Hsub' & Hloop').
  destruct (drain_loop k (worker_step st)) as (_ & Hdrain & Hloopk);
    [done|by apply Inv_worker_step|by rewrite is_recording_worker_step|done
    |by rewrite Hq'|].
  assert (Hpend : pending (worker_step st) = contents (world st) <$> xs).
  { pose proof (fifo_worker_step st HI) as Hf.
    rewrite Hsub', <- app_assoc in Hf. apply app_inv_head in Hf.
    unfold pending at 2 in Hf. rewrite Hitems in Hf. simpl in Hf.
    by injection Hf. }
  assert (Hfinal : submitted (run (replicate k WorkerStep) (worker_step st))
                   = submitted st ++ pending st).
  { rewrite Hdrain, Hsub', Hpend, <- app_assoc. unfold pending.
    by rewrite Hitems. }
  assert (Heq : worker_step st
                = set_pc WLoop
                    (with_session (Some ses')
                       (log (Submitted (contents (world st) x) :: logged err)
                          (with_items xs st)))).
  { destruct err as [|msg| |msg|msg]; try discriminate Hexc.
    - by apply worker_step_swallowed with ses.
    - by apply worker_step_error with ses.
    - by apply worker_step_error with ses. }
  assert (Hquiet : omap rendering (logged err) = [])
    by (by destruct err).
  split_and!; try done; try (rewrite Heq; done).
  - by destruct err.
  - by intros ->.
  - rewrite Heq, worker_at_set_pc.
    change (worker_at (with_session _ _)) with (worker_at st).
    by destruct Hloop as [->|[? ->]].
  - rewrite Heq. unfold rendered. simpl.
    rewrite omap_app.
    change (omap rendering (Submitted (contents (world st) x) :: logged err))
      with (omap rendering (logged err)).
    by rewrite Hquiet, app_nil_r.
Qed.

Fixpoint total_elapse (evs : list event) : nat :=
  match evs with
  | [] => 0
  | Elapse ms :: evs' => ms + total_elapse evs'
  | _ :: evs' => total_elapse evs'
  end.

(** ** What the scheduled threads leave alone *)

(** What the callback and the worker send out. *)
Definition worker_obs (o : obs) : Prop :=
  match o with
  | Printed _ | Rendered _ | Acquired _ _ _ | Submitted _ | ResultText _
  | Released => True
  | _ => False
  end.

Lemma printed_only_worker_obs l : printed_only l → Forall worker_obs l.
Proof. intros Hl. eapply Forall_impl; [exact Hl|]. by intros o [s ->]. Qed.

Lemma omap_worker_obs {A} (f : obs → option A) l :
  (∀ o, worker_obs o → f o = None) → Forall worker_obs l → omap f l = [].
Proof.
  intros Hf. induction 1 as [|o l Ho _ IH]; [done|].
  simpl. by rewrite (Hf o Ho).
Qed.

Definition event_time (ev : event) : nat :=
  match ev with Elapse ms => ms | _ => 0 end.

Lemma step_world (st : State E) ev :
  fs (world (step ev st)) = fs (world st)
  ∧ uptime (world (step ev st)) = uptime (world st) + event_time ev
  ∧ ∃ l, trace (world (step ev st)) = trace (world st) ++ l ∧ Forall worker_obs l.
Proof.
  destruct ev as [b data status| |ms].
  - destruct (callback_quiet st b data status) as (_ & l & Hl & Hp).
    split_and!; [| |exists l; split; [done|by apply printed_only_worker_obs]].
    + unfold step. destruct (stream_open (world st)); [|done].
      unfold audio_callback. unfold_monad. unfold queue_put, copy, column0, ndim.
      destruct_state st. simpl in *.
      destruct (truthy status); simpl; rewrite ?lookup_total_insert_eq;
        destruct data as [xs|[|c] rows]; simpl;
        rewrite ?lookup_total_insert_eq; simpl;
        try destruct (full audio_queue0); reflexivity.
    + unfold step. destruct (stream_open (world st)); [|simpl; lia].
      unfold audio_callback. unfold_monad. unfold queue_put, copy, column0, ndim.
      destruct_state st. simpl in *.
      destruct (truthy status); simpl; rewrite ?lookup_total_insert_eq;
        destruct data as [xs|[|c] rows]; simpl;
        rewrite ?lookup_total_insert_eq; simpl;
        try destruct (full audio_queue0); simpl; lia.
  - change (step WorkerStep st) with (worker_step st).
    worker_cases st; simpl; (split_and!; [done|lia|]);
      try (exists []; split; [by rewrite app_nil_r|constructor]);
      try (eexists; split; [reflexivity|repeat constructor]).
    eexists. split; [by rewrite <- app_assoc|].
    repeat constructor. apply printed_only_worker_obs, display_output_printed.
  - simpl. rewrite elapse_eq.
    destruct (worker_at st) as [[]|]; simpl;
      (split_and!; [done|done|exists []; split; [by rewrite app_nil_r|constructor]]).
Qed.

Lemma run_world (st : State E) evs :
  fs (world (run evs st)) = fs (world st)
  ∧ uptime (world (run evs st)) = uptime (world st) + total_elapse evs
  ∧ ∃ l, trace (world (run evs st)) = trace (world st) ++ l ∧ Forall worker_obs l.
Proof.
  revert st. induction evs as [|ev evs IH]; intros st.
  - simpl. split_and!; [done|lia|exists []; split; [by rewrite app_nil_r|constructor]].
  - rewrite run_cons.
    destruct (IH (step ev st)) as (-> & -> & l2 & -> & Hl2).
    destruct (step_world st ev) as (-> & -> & l1 & -> & Hl1).
    split_and!; [done|destruct ev; simpl; lia|].
    exists (l1 ++ l2). split; [by rewrite app_assoc|by apply Forall_app].
Qed.

(** ** Stopping *)

(** [lecture_transcription_<YYYYMMDD_HHMMSS>.txt] *)
Definition transcript_name (d : datetime) : str :=
  lit "lecture_transcription_" ++ strftime "%Y%m%d_%H%M%S" d ++ lit ".txt".

(** The header line, the rule of 60 [=] and the empty line. *)
Definition transcript_header (d : datetime) : str :=
  (lit "Lecture Transcription - " ++ strftime "%Y-%m-%d %H:%M:%S" d ++ [10%N])
  ++ times (lit "=") 60 ++ [10%N; 10%N].

Definition saved_line (name : str) : obs :=
  Printed (([10%N; 0x1F4BE%N] ++ lit " Transcription saved to: " ++ name) ++ [10%N]).

Definition ended_line : obs :=
  Printed (([10%N; 0x2705%N] ++ lit " Session ended") ++ [10%N]).

(** The state when [join] has returned. *)
Definition after_join (dj : list event) (st : State E) : State E :=
  match transcription_thread (self st) with
  | Some _ => wait thread_ended join_timeout dj (on_self (set_is_recording false) st)
  | None => on_self (set_is_recording false) st
  end.

(** The state after the rest of [stop_recording] (lines 157-169). *)
Definition saved (st : State E) : State E :=
  let text := current_text (self st) in
  let n := clock_reads (world st) in
  let name := transcript_name (clock n) in
  if truthy (strip text)
  then on_world (fun w =>
                   set_fs (<[name := transcript_header (clock (S n)) ++ text]> (fs w))
                     (set_clock_reads (S (S n)) w))
         (log [OpenFile name; saved_line name; ended_line] st)
  else log [ended_line] st.

Lemma save_transcription_eq (st : State E) :
  save_transcription st = (Ret tt, saved st).
Proof.
  unfold save_transcription, saved, open_w, write, now. unfold_monad.
  destruct_state st. simpl.
  destruct (truthy (strip current_text0)); simpl; [|reflexivity].
  unfold transcript_name, transcript_header, log, saved_line, ended_line. simpl.
  rewrite !alter_insert_eq. simpl. rewrite <- !app_assoc. reflexivity.
Qed.

Lemma stop_recording_eq (dj : list event) (st : State E) :
  stop_recording dj st = (Ret tt, saved (after_join dj st)).
Proof.
  unfold stop_recording, after_join, join. unfold_monad. simpl.
  destruct (transcription_thread (self st)); simpl; apply save_transcription_eq.
Qed.

(** ** Starting *)

Definition stopped_line : obs :=
  Printed (([10%N; 10%N; 0x1F6D1%N] ++ lit " Recording stopped by user") ++ [10%N]).

Definition failure_line (e : exn) : obs :=
  Printed (([10%N; 10%N; 0x274C%N] ++ lit " Error: " ++ exn_str e) ++ [10%N]).

(** What the handlers of [start_recording] do for [e], and how the
    [try] statement ends. *)
Definition handled (e : exn) (st : State E) : State E :=
  match e with
  | KeyboardInterrupt => log [stopped_line] st
  | _ => if is_Exception e then log [failure_line e] st else st
  end.

Definition outcome (e : exn) : result unit :=
  match e with
  | KeyboardInterrupt => Ret tt
  | _ => if is_Exception e then Ret tt else Raise e
  end.

(** The state when the worker thread has been started (lines 115-125)
    and the events of [startup] have happened. *)
Definition started (sc : script) (st : State E) : State E :=
  run (startup sc)
    (set_pc WReady
       (on_self (set_transcription_thread
                   (Some {| daemon := true; pc := Unstarted |}))
          (on_self (set_is_recording true)
             (log [Printed (lit "Initializing audio capture..." ++ [10%N]);
                   Printed ((lit "Sample rate: "
                             ++ repr_int (sample_rate (self st)) ++ lit " Hz")
                            ++ [10%N]);
                   Printed ((lit "Chunk duration: "
                             ++ repr_float (chunk_duration (self st))
                             ++ lit " seconds") ++ [10%N]);
                   Printed [10%N]] st)))).

(** The sleeps of the main thread. *)
Definition idle (slots : list (list event)) (st : State E) : State E :=
  foldl (fun s evs => wait (fun _ => false) sleep_time evs s) st slots.

Definition recording_line : obs :=
  Printed (([0x1F3A4%N] ++ lit " Recording started! Speak into your microphone...")
           ++ [10%N]).

(** The exception that ends the [try] block of [start_recording] and
    the state when its handler is done, from the state [started]. *)
Definition recorded (sc : script) (st : State E) : exn * State E :=
  let st' := log [OpenStream (sample_rate (self st)) 1 (chunk_size (self st))] st in
  match open_error sc with
  | Some e => (e, handled e st')
  | None =>
      (cause sc,
       handled (cause sc)
         (log [CloseStream]
            (on_world (set_stream_open false)
               (idle (sleeps sc)
                  (displayed
                     (log [recording_line]
                        (on_world (set_stream_open true) st')))))))
  end.

(** Waiting is a schedule of its own, which takes no longer than the
    time allowed. *)
Lemma wait_run done budget evs (st : State E) :
  ∃ evs', wait done budget evs st = run evs' st ∧ total_elapse evs' ≤ budget.
Proof.
  revert budget st. induction evs as [|ev evs IH]; intros budget st; simpl.
  - destruct (done st); [by exists []; simpl; split; [|lia]|].
    exists [Elapse budget]. simpl. split; [done|lia].
  - destruct (done st); [by exists []; simpl; split; [|lia]|].
    destruct ev as [b data status| |ms].
    + destruct (IH budget (step (Callback b data status) st)) as (evs' & -> & ?).
      by exists (Callback b data status :: evs').
    + destruct (IH budget (step WorkerStep st)) as (evs' & -> & ?).
      by exists (WorkerStep :: evs').
    + destruct (budget <=? ms) eqn:Hb.
      * exists [Elapse budget]. simpl. split; [done|lia].
      * apply Nat.leb_gt in Hb.
        destruct (IH (budget - ms) (elapse ms st)) as (evs' & -> & ?).
        exists (Elapse ms :: evs'). simpl. split; [done|lia].
Qed.

Lemma idle_run slots (st : State E) : ∃ evs, idle slots st = run evs st.
Proof.
  revert st. induction slots as [|evs slots IH]; intros st; [by exists []|].
  change (idle (evs :: slots) st)
    with (idle slots (wait (fun _ => false) sleep_time evs st)).
  destruct (wait_run (fun _ => false) sleep_time evs st) as (evs1 & -> & _).
  destruct (IH (run evs1 st)) as (evs2 & ->).
  exists (evs1 ++ evs2). by rewrite run_app.
Qed.

Lemma idle_loop_eq slots cause (st : State E) :
  is_recording (self st) = true →
  idle_loop slots cause st = (Raise cause, idle slots st).
Proof.
  revert st. induction slots as [|evs slots IH]; intros st Hrec.
  - simpl. by rewrite Hrec.
  - change (idle (evs :: slots) st)
      with (idle slots (wait (fun _ => false) sleep_time evs st)).
    simpl. rewrite Hrec. apply IH.
    destruct (wait_run (fun _ => false) sleep_time evs st) as (evs1 & -> & _).
    by rewrite is_recording_run.
Qed.

Lemma is_recording_started sc (st : State E) :
  is_recording (self (started sc st)) = true.
Proof. unfold started. by rewrite is_recording_run. Qed.

Lemma start_recording_eq (sc : script) (st : State E) :
  start_recording sc st
  = (outcome (fst (recorded sc (started sc st))),
     saved (after_join (during_join sc) (snd (recorded sc (started sc st))))).
Proof.
  pose proof (is_recording_started sc st) as Hrec.
  unfold start_recording, with_input_stream, finally, try_except.
  unfold_monad. simpl.
  match goal with
  | |- context [run (startup sc) ?x] =>
      replace (run (startup sc) x) with (started sc st)
        by (unfold started; f_equal; destruct_state st; simpl;
            rewrite <- ?app_assoc; reflexivity)
  end.
  unfold recorded.
  destruct (open_error sc) as [e|]; simpl.
  - destruct e; simpl; rewrite stop_recording_eq; reflexivity.
  - rewrite display_transcription_eq, idle_loop_eq by exact Hrec. simpl.
    destruct (cause sc); simpl; rewrite stop_recording_eq; reflexivity.
Qed.

(** ** The saved transcript *)

Definition file_open (o : obs) : option str :=
  match o with OpenFile n => Some n | _ => None end.

(** The names [open(name, 'w')] was called with, in order. *)
Definition file_opens (st : State E) : list str :=
  omap file_open (trace (world st)).

Lemma after_join_facts (dj : list event) (st : State E) :
  fs (world (after_join dj st)) = fs (world st)
  ∧ is_recording (self (after_join dj st)) = false
  ∧ uptime (world (after_join dj st)) ≤ uptime (world st) + join_timeout
  ∧ ∃ l, trace (world (after_join dj st)) = trace (world st) ++ l
         ∧ Forall worker_obs l.
Proof.
  unfold after_join. destruct (transcription_thread (self st)).
  - destruct (wait_run thread_ended join_timeout dj
                (on_self (set_is_recording false) st)) as (evs & -> & Ht).
    destruct (run_world (on_self (set_is_recording false) st) evs)
      as (-> & -> & l & -> & Hl).
    rewrite is_recording_run. simpl. split_and!; [done|done|lia|by exists l].
  - simpl. split_and!; [done|done|lia|].
    exists []. split; [by rewrite app_nil_r|constructor].
Qed.

(** C4, as the code has it.  [stop_recording] writes a file if and only
    if the final transcript has a character that is not white space; the
    file is then opened once, in write mode, under the name
    lecture_transcription_<YYYYMMDD_HHMMSS>.txt of the moment, and holds
    the header followed by exactly the final transcript, whatever a file
    of that name held before; no other file changes.  When the final
    transcript is empty or white space only, no file is opened, the file
    system is unchanged, and nothing changes after the join but the
    closing line on the console. *)
Theorem transcript_saved (dj : list event) (st : State E) :
  let st1 := after_join dj st in
  let text := current_text (self st1) in
  let name := transcript_name (clock (clock_reads (world st1))) in
  let header := transcript_header (clock (S (clock_reads (world st1)))) in
  ∃ st', stop_recording dj st = (Ret tt, st')
    ∧ is_recording (self st') = false
    ∧ current_text (self st') = text
    ∧ ((∃ c, c ∈ text ∧ isspace c = false) →
       fs (world st') = <[name := header ++ text]> (fs (world st))
       ∧ file_opens st' = file_opens st ++ [name])
    ∧ ((∀ c, c ∈ text → isspace c = true) →
       fs (world st') = fs (world st)
       ∧ file_opens st' = file_opens st
       ∧ st' = log [ended_line] st1).
Proof.
  intros st1 text name header. exists (saved st1).
  destruct (after_join_facts dj st) as (Hfs & Hrec & _ & l & Htr & Hl).
  fold st1 in Hfs, Hrec, Htr.
  assert (Hopens : file_opens st1 = file_opens st).
  { unfold file_opens. rewrite Htr, omap_app.
    rewrite (omap_worker_obs file_open l); [by rewrite app_nil_r| |done].
    by intros []. }
  split; [apply stop_recording_eq|].
  unfold saved. fold text name header.
  destruct (truthy (strip text)) eqn:Hs.
  - split_and!; try done.
    + intros _. simpl. rewrite Hfs. split; [done|].
      unfold file_opens in *. simpl. by rewrite omap_app, Hopens.
    + intros Hblank. apply truthy_strip in Hs as (c & Hc & Hsp).
      apply Hblank in Hc. congruence.
  - split_and!; try done.
    + intros Hchar. apply truthy_strip in Hchar. congruence.
    + intros _. split_and!; try done.
      unfold file_opens in *. simpl. by rewrite omap_app, Hopens, app_nil_r.
Qed.

(** ** Shutdown *)

(** A worker that is on its way out once recording has stopped: waiting
    in a [get] that times out after [r] more ms at the latest, back at
    the loop test, or gone. *)
Definition winding_down (st : State E) (r : nat) : Prop :=
  (∃ w, worker_at st = Some (WGet w)
        ∧ items (audio_queue (self st)) = []
        ∧ get_timeout ≤ w + r)
  ∨ worker_at st = Some WLoop
  ∨ worker_at st = Some WDone.

Lemma winding_down_step (st : State E) ev r :
  is_recording (self st) = false →
  stream_open (world st) = false →
  winding_down st r →
  winding_down (step ev st) (r - event_time ev).
Proof.
  intros Hrec Hclosed Hwd. destruct ev as [b data status| |ms].
  - rewrite step_callback_closed by done. simpl. by rewrite Nat.sub_0_r.
  - change (step WorkerStep st) with (worker_step st). simpl.
    rewrite Nat.sub_0_r. unfold winding_down in *.
    worker_cases st;
      try (destruct Hg as [(_ & Hg & _)|Hg]; [congruence|]);
      rewrite ?worker_at_set_pc; simpl;
      try (change (worker_at (with_session _ _)) with (worker_at st));
      try (destruct Hwd as [(w' & Hw' & Hq' & Hle)|[Hw'|Hw']]; congruence).
    + done.
    + destruct Hwd as [(w' & Hw' & Hq' & Hle)|[Hw'|Hw']];
        rewrite Hw'; naive_solver.
    + destruct Hwd as [(w' & Hw' & Hq' & Hle)|[Hw'|Hw']]; try congruence.
      left. exists w. rewrite Hg. split_and!; try done.
      rewrite Hg in Hw'. simplify_eq. done.
    + right. left. by rewrite Hg.
  - simpl. rewrite elapse_eq. unfold winding_down in *.
    destruct Hwd as [(w' & Hw' & Hq' & Hle)|[Hw'|Hw']]; rewrite Hw'.
    + left. exists (w' + ms). rewrite worker_at_set_pc.
      change (worker_at (on_world _ st)) with (worker_at st). rewrite Hw'.
      split_and!; try done. lia.
    + right. left. exact Hw'.
    + right. right. exact Hw'.
Qed.

Lemma winding_down_run (st : State E) evs r :
  is_recording (self st) = false →
  stream_open (world st) = false →
  winding_down st r →
  winding_down (run evs st) (r - total_elapse evs).
Proof.
  revert st r. induction evs as [|ev evs IH]; intros st r Hrec Hclosed Hwd.
  - simpl. by rewrite Nat.sub_0_r.
  - rewrite run_cons.
    replace (r - total_elapse (ev :: evs))
      with (r - event_time ev - total_elapse evs)
      by (destruct ev; simpl; lia).
    apply IH; [by rewrite is_recording_step|by rewrite stream_open_step|].
    by apply winding_down_step.
Qed.

Lemma worker_exits (st : State E) :
  is_recording (self st) = false → worker_at st = Some WLoop →
  worker_at (worker_step st) = Some WDone
  ∧ stream_session (world (worker_step st)) = None
  ∧ is_recording (self (worker_step st)) = false.
Proof.
  intros Hrec Hloop. rewrite is_recording_worker_step.
  worker_cases st;
    try (destruct Hg as [(_ & Hg & _)|Hg]; congruence); try congruence.
  - by destruct (Hidle _ Hloop) as [|[|[]]].
  - rewrite worker_at_set_pc.
    change (worker_at (with_session _ _)) with (worker_at st).
    by rewrite Hloop.
Qed.

Lemma worker_done_stays (st : State E) :
  worker_at st = Some WDone → worker_step st = st.
Proof. intros Hdone. unfold worker_step. by rewrite Hdone. Qed.

Lemma worker_times_out (st : State E) w :
  worker_at st = Some (WGet w) →
  items (audio_queue (self st)) = [] →
  get_timeout ≤ w →
  worker_step st = set_pc WLoop st.
Proof.
  intros Hget Hempty Hw. unfold worker_step. rewrite Hget.
  unfold worker_turn, loop_body, try_except, queue_get. unfold_monad.
  rewrite Hempty. apply Nat.leb_le in Hw. by rewrite Hw.
Qed.

(** C6. Once recording is false, a worker waiting on the empty queue of
    the closed stream is out of the loop as soon as what is left of the
    0.1 s timeout of its [get] has passed and it has been scheduled, and
    a worker at the loop test leaves without calling [get] again.  The
    join of [stop_recording] takes 2 s at most, and [stop_recording] then
    saves the transcript and returns, in whatever state the worker is. *)
Theorem shutdown_bounded (st : State E) (w : nat) (evs dj : list event) :
  is_recording (self st) = false →
  stream_open (world st) = false →
  worker_at st = Some (WGet w) →
  items (audio_queue (self st)) = [] →
  get_timeout - w ≤ total_elapse evs →
  worker_at (worker_step (worker_step (run evs st))) = Some WDone
  ∧ (∀ st0, is_recording (self st0) = false → worker_at st0 = Some WLoop →
            worker_at (worker_step st0) = Some WDone)
  ∧ (∀ st0, uptime (world (after_join dj st0)) ≤ uptime (world st0) + join_timeout
            ∧ is_recording (self (after_join dj st0)) = false
            ∧ stop_recording dj st0 = (Ret tt, saved (after_join dj st0))).
Proof.
  intros Hrec Hclosed Hget Hempty Ht. split_and!.
  - assert (Hwd : winding_down (run evs st) 0).
    { replace 0 with ((get_timeout - w) - total_elapse evs) by lia.
      apply winding_down_run; [done|done|].
      left. exists w. split_and!; [done|done|lia]. }
    assert (Hrec' : is_recording (self (run evs st)) = false)
      by (by rewrite is_recording_run).
    destruct Hwd as [(w' & Hw' & Hq' & Hle)|[Hw'|Hw']].
    + rewrite (worker_times_out (run evs st) w') by (done || lia).
      apply worker_exits; [done|].
      rewrite worker_at_set_pc. by rewrite Hw'.
    + destruct (worker_exits _ Hrec' Hw') as (Hdone & _ & _).
      by rewrite (worker_done_stays (worker_step (run evs st)) Hdone).
    + by rewrite !(worker_done_stays (run evs st) Hw').
  - intros st0 Hrec0 Hloop0. by apply worker_exits.
  - intros st0. destruct (after_join_facts dj st0) as (_ & Hrec0 & Hup & _).
    split_and!; [done|done|apply stop_recording_eq].
Qed.

(** ** Every way out of [start_recording] *)

Lemma fs_handled e (st : State E) : fs (world (handled e st)) = fs (world st).
Proof. destruct e; simpl; try done; by destruct (is_Exception _). Qed.

Lemma fs_started sc (st : State E) : fs (world (started sc st)) = fs (world st).
Proof. unfold started. by destruct (run_world (set_pc WReady
  (on_self (set_transcription_thread (Some {| daemon := true; pc := Unstarted |}))
     (on_self (set_is_recording true)
        (log [Printed (lit "Initializing audio capture..." ++ [10%N]);
              Printed ((lit "Sample rate: " ++ repr_int (sample_rate (self st))
                        ++ lit " Hz") ++ [10%N]);
              Printed ((lit "Chunk duration: "
                        ++ repr_float (chunk_duration (self st))
                        ++ lit " seconds") ++ [10%N]);
              Printed [10%N]] st)))) (startup sc)) as (-> & _).
Qed.

Lemma fs_recorded sc (st : State E) :
  fs (world (snd (recorded sc st))) = fs (world st).
Proof.
  unfold recorded. destruct (open_error sc) as [e|]; simpl.
  - by rewrite fs_handled.
  - rewrite fs_handled. simpl.
    destruct (idle_run (sleeps sc)
      (displayed (log [recording_line]
         (on_world (set_stream_open true)
            (log [OpenStream (sample_rate (self st)) 1 (chunk_size (self st))] st)))))
      as (evs & ->).
    by destruct (run_world (displayed (log [recording_line]
         (on_world (set_stream_open true)
            (log [OpenStream (sample_rate (self st)) 1 (chunk_size (self st))] st))))
         evs) as (-> & _).
Qed.

(** C9, as the code has it.  Whatever ends the [try] block of
    [start_recording] (an interrupt, an error while the stream is open,
    a stream that fails to open, or any other exception), the method
    ends with the one call of [stop_recording]: from the state the
    handler left, recording is set false, the worker is joined for 2 s at
    most, and the transcript is saved if it has a character that is not
    white space, under the name and with the header of that moment.
    After an interrupt or an [Exception] the method returns normally. *)
Theorem same_shutdown_on_every_exit (sc : script) (st : State E) :
  let e := fst (recorded sc (started sc st)) in
  let st4 := snd (recorded sc (started sc st)) in
  let st5 := after_join (during_join sc) st4 in
  let text := current_text (self st5) in
  let name := transcript_name (clock (clock_reads (world st5))) in
  let header := transcript_header (clock (S (clock_reads (world st5)))) in
  e = default (cause sc) (open_error sc)
  ∧ start_recording sc st = (outcome e, saved st5)
  ∧ stop_recording (during_join sc) st4 = (Ret tt, saved st5)
  ∧ (e = KeyboardInterrupt ∨ is_Exception e = true → outcome e = Ret tt)
  ∧ is_recording (self (saved st5)) = false
  ∧ uptime (world st5) ≤ uptime (world st4) + join_timeout
  ∧ current_text (self (saved st5)) = text
  ∧ fs (world (saved st5))
    = if truthy (strip text)
      then <[name := header ++ text]> (fs (world st))
      else fs (world st).
Proof.
  intros e st4 st5 text name header.
  destruct (after_join_facts (during_join sc) st4) as (Hfs & Hrec & Hup & _).
  fold st5 in Hfs, Hrec, Hup.
  assert (Hfs4 : fs (world st4) = fs (world st))
    by (unfold st4; by rewrite fs_recorded, fs_started).
  split_and!.
  - unfold e, recorded. by destruct (open_error sc).
  - apply start_recording_eq.
  - apply stop_recording_eq.
  - intros [->|He]; [done|]. unfold outcome. rewrite He. by destruct e.
  - unfold saved. by destruct (truthy _).
  - done.
  - unfold saved. by destruct (truthy _).
  - unfold saved. fold text name header.
    destruct (truthy (strip text)); simpl; by rewrite Hfs, Hfs4.
Qed.

(** ** The main program *)

Definition wlog (l : list obs) (w : World E) : World E :=
  set_trace (trace w ++ l) w.

Definition banner : list obs :=
  [Printed (([0x1F393%N] ++ lit " Live Lecture Transcription") ++ [10%N]);
   Printed (lit "============================" ++ [10%N]);
   Printed [10%N];
   Printed (lit "Available audio devices:" ++ [10%N]);
   Printed (query_devices ++ [10%N]);
   Printed [10%N];
   Printed ((lit "Loading model: " ++ default_model) ++ [10%N]);
   LoadModel default_model].

Definition failed_lines (e : exn) : list obs :=
  [Printed (([0x274C%N] ++ lit " Failed to start transcription: " ++ exn_str e)
            ++ [10%N]);
   Printed (lit "Make sure you have a microphone connected and permissions enabled."
            ++ [10%N])].

(** The object [LiveTranscriber(sample_rate=16000, chunk_duration=1.0)]
    constructs. *)
Definition constructed : LiveTranscriber :=
  {| model := default_model;
     sample_rate := 16000;
     chunk_duration := 1;
     chunk_size := 16000;
     audio_queue := {| maxsize := 0; items := [] |};
     is_recording := false;
     transcription_thread := None;
     full_transcription := [];
     current_text := [] |}.

Lemma init_eq (w : World E) :
  init default_model 16000 1 None w
  = (Ret constructed,
     wlog [Printed ((lit "Loading model: " ++ default_model) ++ [10%N]);
           LoadModel default_model] w).
Proof.
  unfold init. unfold_monad. destruct w. unfold wlog. simpl.
  rewrite <- app_assoc. reflexivity.
Qed.

Lemma main_load_error (e : exn) (sc : script) (w : World E) :
  main (Some e) sc w
  = (if is_Exception e
     then (Ret tt, wlog (banner ++ failed_lines e) w)
     else (Raise e, wlog banner w),
     None).
Proof.
  unfold main, init, banner, failed_lines, wlog. unfold_monad.
  destruct w. simpl. destruct (is_Exception e); simpl;
    unfold_monad; simpl; rewrite <- ?app_assoc; reflexivity.
Qed.

Lemma main_started (sc : script) (w : World E) :
  let st := {| self := constructed; world := wlog banner w |} in
  let e := fst (recorded sc (started sc st)) in
  let st' := saved (after_join (during_join sc) (snd (recorded sc (started sc st)))) in
  main None sc w = ((outcome e, world st'), Some (self st')).
Proof.
  intros st e st'.
  assert (Hst : start_recording sc st = (outcome e, st'))
    by apply start_recording_eq.
  unfold main. 
  replace ((print ([127891%N] ++ lit " Live Lecture Transcription");;
            print (lit "============================");;
            print [];;
            print (lit "Available audio devices:");;
            print query_devices;;
            print []) w)
    with (Ret tt, wlog (take 6 banner) w)
    by (destruct w; unfold wlog, banner;
        repeat (progress (unfold_monad; simpl));
        rewrite <- ?app_assoc; reflexivity).
  rewrite init_eq.
  replace {| self := constructed; world := wlog _ (wlog _ w) |} with st
    by (unfold st, wlog, banner; destruct w; simpl;
        rewrite <- ?app_assoc; reflexivity).
  rewrite Hst. unfold outcome.
  destruct e; simpl; try reflexivity.
Qed.

(** With the stream closed and the queue empty nothing reaches the
    worker: the transcript stays what it is. *)
Lemma quiet_step (st : State E) ev :
  stream_open (world st) = false →
  items (audio_queue (self st)) = [] →
  current_text (self (step ev st)) = current_text (self st)
  ∧ items (audio_queue (self (step ev st))) = []
  ∧ (is_Some (worker_at st) → is_Some (worker_at (step ev st))).
Proof.
  intros Hclosed Hempty. destruct ev as [b data status| |ms].
  - by rewrite step_callback_closed.
  - change (step WorkerStep st) with (worker_step st).
    worker_cases st; try congruence; rewrite ?worker_at_set_pc; simpl;
      (split_and!; [done|done|]);
      try (change (worker_at (with_session _ _)) with (worker_at st));
      intros [? ->]; eauto.
  - simpl. rewrite elapse_eq.
    destruct (worker_at st) as [[]|] eqn:Hpc; simpl; split_and!; try done;
      rewrite ?worker_at_set_pc;
      try (change (worker_at (on_world _ st)) with (worker_at st));
      rewrite ?Hpc; eauto.
Qed.

Lemma quiet_run (st : State E) evs :
  stream_open (world st) = false →
  items (audio_queue (self st)) = [] →
  current_text (self (run evs st)) = current_text (self st)
  ∧ items (audio_queue (self (run evs st))) = []
  ∧ (is_Some (worker_at st) → is_Some (worker_at (run evs st))).
Proof.
  revert st. induction evs as [|ev evs IH]; intros st Hclosed Hempty; [done|].
  rewrite run_cons. destruct (quiet_step st ev Hclosed Hempty) as (Ht & Hq & Hw).
  destruct (IH (step ev st)) as (-> & -> & Hw');
    [by rewrite stream_open_step|done|]. rewrite Ht. auto.
Qed.

Lemma config_step (st : State E) ev :
  sample_rate (self (step ev st)) = sample_rate (self st)
  ∧ chunk_size (self (step ev st)) = chunk_size (self st).
Proof.
  destruct ev as [b data status| |ms].
  - unfold step. destruct (stream_open (world st)); [|done].
    unfold audio_callback. unfold_monad. unfold queue_put, copy, column0, ndim.
    destruct_state st. simpl in *.
    destruct (truthy status); simpl; rewrite ?lookup_total_insert_eq;
      destruct data as [xs|[|c] rows]; simpl;
      rewrite ?lookup_total_insert_eq; simpl;
      try destruct (full audio_queue0); done.
  - change (step WorkerStep st) with (worker_step st). by worker_cases st.
  - simpl. rewrite elapse_eq. by destruct (worker_at st) as [[]|].
Qed.

Lemma config_run (st : State E) evs :
  sample_rate (self (run evs st)) = sample_rate (self st)
  ∧ chunk_size (self (run evs st)) = chunk_size (self st).
Proof.
  revert st. induction evs as [|ev evs IH]; intros st; [done|].
  rewrite run_cons. destruct (IH (step ev st)) as (-> & ->).
  apply config_step.
Qed.

(** Nothing has been heard: the stream is closed, the queue and the
    transcript are empty, and the worker thread exists. *)
Definition quiet (st : State E) : Prop :=
  stream_open (world st) = false
  ∧ items (audio_queue (self st)) = []
  ∧ current_text (self st) = []
  ∧ is_Some (worker_at st).

Lemma quiet_after_run (st : State E) evs : quiet st → quiet (run evs st).
Proof.
  intros (Hclosed & Hempty & Htext & Hw).
  destruct (quiet_run st evs Hclosed Hempty) as (Ht & Hq & Hw').
  unfold quiet. rewrite stream_open_run, Ht. auto.
Qed.

Definition stream_opening (o : obs) : option (N * nat * Z) :=
  match o with OpenStream r c b => Some (r, c, b) | _ => None end.

(** C5, as the code has it.  When [from_pretrained] raises an
    [Exception], it leaves the constructor, so that no object and no
    session exist and nothing is retried, but [main] catches it, prints
    the failure and returns: the exit status is 0.  When the input
    stream cannot be opened, the exception does not leave
    [start_recording]: recording was already set and the worker thread
    started; the one attempt to open the stream is followed by the error
    line, [stop_recording] runs, no file is written, [start_recording]
    and [main] return normally and the exit status is 0.  After an
    interrupt the exit status is 0 as well. *)
Theorem setup_failures_reported (e : exn) (sc : script) (w : World E) :
  is_Exception e = true →
  stream_open w = false →
  (main (Some e) sc w = ((Ret tt, wlog (banner ++ failed_lines e) w), None)
   ∧ exit_code (fst (fst (main (Some e) sc w))) = Some 0%Z)
  ∧ (open_error sc = Some e →
     ∃ st' l1 l2,
       start_recording sc {| self := constructed; world := wlog banner w |}
       = (Ret tt, st')
       ∧ main None sc w = ((Ret tt, world st'), Some (self st'))
       ∧ exit_code (fst (fst (main None sc w))) = Some 0%Z
       ∧ is_recording (self st') = false
       ∧ is_Some (transcription_thread (self st'))
       ∧ trace (world st')
         = trace w ++ banner ++ l1 ++ [OpenStream 16000 1 16000] ++ l2
       ∧ Forall worker_obs l1 ∧ Forall worker_obs l2
       ∧ failure_line e ∈ l2
       ∧ fs (world st') = fs w)
  ∧ (open_error sc = None → cause sc = KeyboardInterrupt →
     exit_code (fst (fst (main None sc w))) = Some 0%Z).
Proof.
  intros Hexc Hclosed. split_and!.
  - by rewrite main_load_error, Hexc.
  - by rewrite main_load_error, Hexc.
  - intros Hopen.
    pose proof (main_started sc w) as Hmain. cbv zeta in Hmain.
    pose proof (start_recording_eq sc {| self := constructed; world := wlog banner w |})
      as Hstart.
    set (st0 := {| self := constructed; world := wlog banner w |}) in *.
    set (pre := set_pc WReady
       (on_self (set_transcription_thread
                   (Some {| daemon := true; pc := Unstarted |}))
          (on_self (set_is_recording true)
             (log [Printed (lit "Initializing audio capture..." ++ [10%N]);
                   Printed ((lit "Sample rate: "
                             ++ repr_int (sample_rate (self st0)) ++ lit " Hz")
                            ++ [10%N]);
                   Printed ((lit "Chunk duration: "
                             ++ repr_float (chunk_duration (self st0))
                             ++ lit " seconds") ++ [10%N]);
                   Printed [10%N]] st0)))).
    assert (Hst1 : started sc st0 = run (startup sc) pre) by done.
    assert (Hq1 : quiet (started sc st0)).
    { rewrite Hst1. apply quiet_after_run. unfold quiet. simpl. eauto. }
    destruct (run_world pre (startup sc)) as (Hfs1 & _ & la & Hta & Hla).
    destruct (config_run pre (startup sc)) as (Hrate & Hsize).
    rewrite <- Hst1 in Hfs1, Hta, Hrate, Hsize. simpl in Hfs1, Hta, Hrate, Hsize.
    unfold recorded in Hmain, Hstart. rewrite Hopen in Hmain, Hstart.
    simpl in Hmain, Hstart. rewrite Hrate, Hsize in Hmain, Hstart.
    set (st4 := handled e (log [OpenStream 16000 1 16000] (started sc st0))) in *.
    assert (Hst4 : st4 = log [OpenStream 16000 1 16000; failure_line e]
                           (started sc st0)).
    { unfold st4. destruct e; try discriminate; simpl; by rewrite log_log. }
    assert (Hout : outcome e = Ret tt) by (by destruct e).
    rewrite Hout in Hmain, Hstart.
    destruct Hq1 as (Hc1 & He1 & Htx1 & Hw1).
    assert (Hthread : is_Some (transcription_thread (self st4))).
    { rewrite Hst4. simpl. unfold worker_at in Hw1.
      destruct (transcription_thread (self (started sc st0))); [eauto|].
      by destruct Hw1. }
    destruct Hthread as [t Ht].
    assert (Hjoin : ∃ evs, after_join (during_join sc) st4
                           = run evs (on_self (set_is_recording false) st4)).
    { unfold after_join. rewrite Ht.
      destruct (wait_run thread_ended join_timeout (during_join sc)
                  (on_self (set_is_recording false) st4)) as (evs & -> & _).
      by exists evs. }
    destruct Hjoin as (evs & Hjoin).
    assert (Hq4 : quiet (on_self (set_is_recording false) st4)).
    { rewrite Hst4. unfold quiet. simpl. split_and!; done. }
    apply (quiet_after_run _ evs) in Hq4. rewrite <- Hjoin in Hq4.
    destruct Hq4 as (Hc5 & He5 & Htx5 & Hw5).
    destruct (run_world (on_self (set_is_recording false) st4) evs)
      as (Hfs5 & _ & lb & Htb & Hlb).
    rewrite <- Hjoin in Hfs5, Htb. simpl in Hfs5, Htb.
    set (st5 := after_join (during_join sc) st4) in *.
    assert (Hsaved : saved st5 = log [ended_line] st5).
    { unfold saved. rewrite Htx5. reflexivity. }
    rewrite Hsaved in Hmain, Hstart.
    exists (log [ended_line] st5),
      ([Printed (lit "Initializing audio capture..." ++ [10%N]);
        Printed ((lit "Sample rate: "
                  ++ repr_int (sample_rate (self st0)) ++ lit " Hz") ++ [10%N]);
        Printed ((lit "Chunk duration: "
                  ++ repr_float (chunk_duration (self st0))
                  ++ lit " seconds") ++ [10%N]);
        Printed [10%N]] ++ la),
      ([failure_line e] ++ lb ++ [ended_line]).
    split_and!; try done.
    + by rewrite Hmain.
    + simpl. rewrite Hjoin, is_recording_run. done.
    + simpl. unfold worker_at in Hw5.
      by destruct (transcription_thread (self st5)); [eauto|destruct Hw5].
    + simpl. rewrite Htb, Hst4. simpl. rewrite Hta. simpl.
      rewrite <- !app_assoc. reflexivity.
    + apply Forall_app. split; [repeat constructor|done].
    + apply Forall_app. split; [repeat constructor|].
      apply Forall_app. split; [done|repeat constructor].
    + set_solver.
    + simpl. rewrite Hfs5, Hst4. simpl. by rewrite Hfs1.
  - intros Hopen Hcause.
    pose proof (main_started sc w) as Hmain. cbv zeta in Hmain.
    rewrite Hmain. unfold recorded. rewrite Hopen, Hcause. reflexivity.
Qed.

(** ** The streaming context *)

Definition acquisition (o : obs) : option (nat * nat * nat * bool) :=
  match o with Acquired c d k => Some (c, d, k) | _ => None end.

Definition release (o : obs) : option unit :=
  match o with Released => Some tt | _ => None end.

(** The streaming contexts entered, with their configuration, and the
    exits from them, so far. *)
Definition acquisitions (st : State E) : list (nat * nat * nat * bool) :=
  omap acquisition (trace (world st)).

Definition releases (st : State E) : list unit :=
  omap release (trace (world st)).

Definition fixed_config : nat * nat * nat * bool := (256, 256, 1, false).

(** Where the worker stands tells what it has acquired and released. *)
Definition session_inv (st : State E) : Prop :=
  match worker_at st with
  | None | Some Unstarted | Some WReady =>
      acquisitions st = [] ∧ releases st = []
      ∧ stream_session (world st) = None
  | Some WLoop | Some (WGet _) =>
      acquisitions st = [fixed_config] ∧ releases st = []
      ∧ is_Some (stream_session (world st))
  | Some WDone | Some (WRaised _) =>
      acquisitions st = [fixed_config] ∧ releases st = [tt]
      ∧ stream_session (world st) = None
  end.

Lemma session_inv_worker_step (st : State E) :
  session_inv st → session_inv (worker_step st).
Proof.
  unfold session_inv, acquisitions, releases.
  worker_cases st;
    try (destruct Hg as [(Hg & _)|Hg]);
    rewrite ?worker_at_set_pc; simpl;
    try (change (worker_at (with_session _ _)) with (worker_at st));
    try (change (worker_at (displayed _)) with (worker_at st));
    rewrite ?Hpc, ?Hg; simpl; rewrite ?omap_app; simpl; drop_display;
    rewrite ?app_nil_r;
    try (intros (-> & -> & Hs'); simpl; by eauto);
    try (intros (_ & _ & [? ?]); congruence).
  done.
Qed.

Lemma session_inv_step (st : State E) ev :
  session_inv st → session_inv (step ev st).
Proof.
  destruct ev as [b data status| |ms].
  - intros Hinv. destruct (callback_quiet st b data status) as (_ & l & Hl & Hp).
    assert (Hw : worker_at (step (Callback b data status) st) = worker_at st
                 ∧ stream_session (world (step (Callback b data status) st))
                   = stream_session (world st)).
    { unfold step. destruct (stream_open (world st)); [|done].
      unfold audio_callback. unfold_monad. unfold queue_put, copy, column0, ndim.
      destruct_state st. simpl in *.
      destruct (truthy status); simpl; rewrite ?lookup_total_insert_eq;
        destruct data as [xs|[|c] rows]; simpl;
        rewrite ?lookup_total_insert_eq; simpl;
        try destruct (full audio_queue0); done. }
    destruct Hw as (Hw & Hs).
    unfold session_inv, acquisitions, releases in *.
    rewrite Hw, Hs, Hl, !omap_app.
    rewrite (omap_printed_only acquisition l), (omap_printed_only release l)
      by done.
    by rewrite !app_nil_r.
  - apply session_inv_worker_step.
  - simpl. rewrite elapse_eq. unfold session_inv, acquisitions, releases.
    destruct (worker_at st) as [[]|] eqn:Hpc; simpl;
      rewrite ?worker_at_set_pc;
      try (change (worker_at (on_world _ st)) with (worker_at st));
      rewrite ?Hpc; done.
Qed.

Lemma session_inv_run (st : State E) evs :
  session_inv st → session_inv (run evs st).
Proof.
  revert st. induction evs as [|ev evs IH]; intros st Hinv; [done|].
  rewrite run_cons. by apply IH, session_inv_step.
Qed.

Ltac norm_pc :=
  repeat first
    [ progress change (worker_at (log ?l ?s)) with (worker_at s)
    | progress change (worker_at (with_session ?x ?s)) with (worker_at s)
    | progress change (worker_at (with_items ?x ?s)) with (worker_at s)
    | progress change (worker_at (displayed ?s)) with (worker_at s)
    | progress change (worker_at (on_world ?f ?s)) with (worker_at s)
    | progress change (worker_at (on_self (set_current_text ?t) ?s))
        with (worker_at s)
    | rewrite worker_at_set_pc ].

(** A started worker never goes back, and only an exception outside
    [Exception] ends it early. *)
Definition started_pc (st : State E) : Prop :=
  match worker_at st with
  | Some WReady | Some WLoop | Some (WGet _) | Some WDone => True
  | Some (WRaised e) => is_Exception e = false
  | Some Unstarted | None => False
  end.

Lemma started_pc_step (st : State E) ev : started_pc st → started_pc (step ev st).
Proof.
  unfold started_pc. destruct ev as [b data status| |ms].
  - assert (Hw : worker_at (step (Callback b data status) st) = worker_at st).
    { unfold step. destruct (stream_open (world st)); [|done].
      unfold audio_callback. unfold_monad. unfold queue_put, copy, column0, ndim.
      destruct_state st. simpl in *.
      destruct (truthy status); simpl; rewrite ?lookup_total_insert_eq;
        destruct data as [xs|[|c] rows]; simpl;
        rewrite ?lookup_total_insert_eq; simpl;
        try destruct (full audio_queue0); done. }
    by rewrite Hw.
  - change (step WorkerStep st) with (worker_step st).
    worker_cases st;
      try (destruct Hg as [(Hg & _)|Hg]);
      norm_pc; rewrite ?Hpc, ?Hg; done.
  - simpl. rewrite elapse_eq.
    destruct (worker_at st) as [[]|] eqn:Hpc; simpl;
      norm_pc; rewrite ?Hpc; done.
Qed.

Lemma started_pc_run (st : State E) evs : started_pc st → started_pc (run evs st).
Proof.
  revert st. induction evs as [|ev evs IH]; intros st Hinv; [done|].
  rewrite run_cons. by apply IH, started_pc_step.
Qed.

(** C7. A started worker enters one streaming context, with context
    size (256, 256), depth 1 and local attention, when it is first
    scheduled, holds it while it is in the loop, and has exited it once
    it has ended, whether it returned or an exception left the loop:
    whatever the schedule, the contexts entered and exited so far are
    those its position tells. *)
Theorem scoped_session (st : State E) (evs : list event) :
  worker_at st = Some WReady →
  acquisitions st = [] →
  releases st = [] →
  stream_session (world st) = None →
  (worker_at (run evs st) = Some WReady
   ∧ acquisitions (run evs st) = [] ∧ releases (run evs st) = []
   ∧ stream_session (world (run evs st)) = None)
  ∨ (in_loop (run evs st)
     ∧ acquisitions (run evs st) = [fixed_config] ∧ releases (run evs st) = []
     ∧ stream_session (world (run evs st)) ≠ None)
  ∨ ((worker_at (run evs st) = Some WDone
      ∨ ∃ e, is_Exception e = false ∧ worker_at (run evs st) = Some (WRaised e))
     ∧ acquisitions (run evs st) = [fixed_config] ∧ releases (run evs st) = [tt]
     ∧ stream_session (world (run evs st)) = None).
Proof.
  intros Hready Hacq Hrel Hses.
  assert (Hinv : session_inv (run evs st)).
  { apply session_inv_run. unfold session_inv. by rewrite Hready. }
  assert (Hpc : started_pc (run evs st)).
  { apply started_pc_run. unfold started_pc. by rewrite Hready. }
  unfold session_inv, started_pc, in_loop in *.
  destruct (worker_at (run evs st)) as [[| | |w| |e]|]; try done.
  - left. naive_solver.
  - right. left. destruct Hinv as (? & ? & [? Hs]). rewrite Hs. naive_solver.
  - right. left. destruct Hinv as (? & ? & [? Hs]). rewrite Hs. naive_solver.
  - right. right. naive_solver.
  - right. right. naive_solver.
Qed.

Lemma arrays_step (st : State E) ev :
  ∃ l, arrays (world (step ev st)) = arrays (world st) ++ l.
Proof.
  destruct ev as [b data status| |ms].
  - unfold step. destruct (stream_open (world st));
      [|exists []; by rewrite app_nil_r].
    unfold audio_callback. unfold_monad. unfold queue_put, copy, column0, ndim.
    destruct_state st. simpl in *.
    destruct (truthy status); simpl; rewrite ?lookup_total_insert_eq;
      destruct data as [xs|[|c] rows]; simpl;
      rewrite ?lookup_total_insert_eq; simpl;
      try destruct (full audio_queue0); simpl;
      first [ by eexists | exists []; by rewrite app_nil_r ].
  - change (step WorkerStep st) with (worker_step st).
    exists []. rewrite app_nil_r. by worker_cases st.
  - simpl. rewrite elapse_eq. exists []. rewrite app_nil_r.
    by destruct (worker_at st) as [[]|].
Qed.

Lemma arrays_run (st : State E) evs :
  ∃ l, arrays (world (run evs st)) = arrays (world st) ++ l.
Proof.
  revert st. induction evs as [|ev evs IH]; intros st.
  - exists []. by rewrite app_nil_r.
  - rewrite run_cons. destruct (IH (step ev st)) as (l2 & ->).
    destruct (arrays_step st ev) as (l1 & ->).
    exists (l1 ++ l2). by rewrite app_assoc.
Qed.

Lemma channel0_rows c rows :
  0 < c → Forall (fun r : list sample => length r = c) rows →
  length (omap head rows) = length rows
  ∧ ∀ i r, rows !! i = Some r → omap head rows !! i = r !! 0.
Proof.
  intros Hc. induction 1 as [|r rows Hr _ [IHl IHi]]; [done|].
  destruct r as [|x r]; [simpl in Hr; lia|].
  change (omap head ((x :: r) :: rows)) with (x :: omap head rows).
  split; [simpl; by rewrite IHl|].
  intros [|i] r'; simpl; [by intros [= <-]|apply IHi].
Qed.

(** The shape of a buffer the stream delivers: one dimension, or frames
    of the same positive number of channels. *)
Definition wf_buffer (d : array_data sample) : Prop :=
  match d with
  | Data1 _ => True
  | Data2 c rows => 0 < c ∧ Forall (fun r => length r = c) rows
  end.

Lemma audio_callback_ret (st : State E) b status :
  full (audio_queue (self st)) = false →
  wf_buffer (hw (world st) !!! b) →
  audio_callback b status st =
    (Ret tt,
     with_items (items (audio_queue (self st))
                 ++ [Owned (length (arrays (world st)))])
       (alloc (channel0 (hw (world st) !!! b))
          (log (status_line status) st))).
Proof.
  intros Hfull Hwf. destruct st as [o w]. simpl in *.
  unfold audio_callback, status_line. unfold_monad.
  unfold queue_put, copy, column0, ndim.
  destruct (hw w !!! b) as [xs|[|c] rows] eqn:Hb; [| destruct Hwf; lia |];
    destruct (truthy status);
    repeat (progress (simpl; rewrite ?Hb, ?Hfull));
    unfold with_items, alloc, log, on_world, on_self; simpl;
    rewrite ?app_nil_r; destruct w; reflexivity.
Qed.

(** C8. For a buffer the stream delivers, one-dimensional or with at
    least one channel, and the queue [__init__] made, the callback
    returns without waiting, having put at the end of the queue a new
    array that owns its memory and holds the buffer itself when it has
    one dimension and channel 0 of every frame otherwise; the hardware
    may refill its buffer, the enqueued samples stay.  The callback does
    nothing else than print the status flags: nothing is submitted to
    the recognizer, the worker, the transcript and the clock are as
    before. *)
Theorem callback_enqueues_copy (st : State E) (b : nat) (status : str)
    (evs : list event) :
  maxsize (audio_queue (self st)) = 0 →
  wf_buffer (hw (world st) !!! b) →
  ∃ st' frame,
    audio_callback b status st = (Ret tt, st')
    ∧ items (audio_queue (self st'))
      = items (audio_queue (self st)) ++ [Owned (length (arrays (world st)))]
    ∧ contents (world st') (Owned (length (arrays (world st)))) = frame
    ∧ match hw (world st) !!! b with
      | Data1 xs => frame = Data1 xs
      | Data2 _ rows =>
          ∃ xs, frame = Data1 xs ∧ length xs = length rows
                ∧ ∀ i r, rows !! i = Some r → xs !! i = r !! 0
      end
    ∧ contents (world (run evs st')) (Owned (length (arrays (world st)))) = frame
    ∧ submitted st' = submitted st
    ∧ stream_session (world st') = stream_session (world st)
    ∧ worker_at st' = worker_at st
    ∧ current_text (self st') = current_text (self st)
    ∧ is_recording (self st') = is_recording (self st)
    ∧ uptime (world st') = uptime (world st)
    ∧ trace (world st') = trace (world st) ++ status_line status.
Proof.
  intros Hmax Hwf.
  assert (Hfull : full (audio_queue (self st)) = false)
    by (unfold full; by rewrite Hmax).
  eexists _, (channel0 (hw (world st) !!! b)).
  split; [by apply audio_callback_ret|].
  split_and!; try done.
  - simpl. by rewrite list_lookup_total_middle.
  - destruct (hw (world st) !!! b) as [xs|c rows]; [done|].
    destruct Hwf as [Hc Hrows]. exists (omap head rows). split; [done|].
    by apply channel0_rows with c.
  - match goal with |- contents (world (run evs ?s)) _ = _ =>
      destruct (arrays_run s evs) as (l & Hl) end.
    simpl in *. rewrite Hl, <- app_assoc. simpl.
    by rewrite list_lookup_total_middle.
  - unfold submitted. simpl.
    by rewrite omap_app, submission_status_line, app_nil_r.
Qed.

(** ** The unused attribute *)

Definition with_ft (l : list str) (st : State E) : State E :=
  on_self (set_full_transcription l) st.

(** A computation that neither reads nor writes [full_transcription]:
    it does the same whatever the attribute holds, and leaves it. *)
Definition blind {A} (m : M A) : Prop :=
  ∀ l st, m (with_ft l st) = (fst (m st), with_ft l (snd (m st))).

(** The same for a transition of the state. *)
Definition blind_fun (f : State E → State E) : Prop :=
  ∀ l st, f (with_ft l st) = with_ft l (f st).

Lemma with_ft_id (st : State E) : with_ft (full_transcription (self st)) st = st.
Proof. by destruct_state st. Qed.

Lemma blind_keeps {A} (m : M A) (st : State E) :
  blind m →
  full_transcription (self (snd (m st))) = full_transcription (self st).
Proof.
  intros Hm. specialize (Hm (full_transcription (self st)) st).
  rewrite with_ft_id in Hm. rewrite Hm at 1. reflexivity.
Qed.

Lemma blind_fun_keeps f (st : State E) :
  blind_fun f → full_transcription (self (f st)) = full_transcription (self st).
Proof.
  intros Hf. specialize (Hf (full_transcription (self st)) st).
  rewrite with_ft_id in Hf. rewrite Hf at 1. reflexivity.
Qed.

Lemma blind_mret {A} (a : A) : blind (mret a).
Proof. by intros l st. Qed.

Lemma blind_raise {A} (e : exn) : blind (raise (A:=A) e).
Proof. by intros l st. Qed.

Lemma blind_bind {A B} (m : M A) (k : A → M B) :
  blind m → (∀ a, blind (k a)) → blind (m ≫= k).
Proof.
  intros Hm Hk l st. unfold mbind, SE_bind. rewrite Hm.
  destruct (m st) as [[a|e|] st']; simpl; [apply Hk|done|done].
Qed.

Lemma blind_gets {A} (f : State E → A) :
  (∀ l st, f (with_ft l st) = f st) → blind (gets f).
Proof. intros Hf l st. unfold gets. by rewrite Hf. Qed.

Lemma blind_modify (f : State E → State E) : blind_fun f → blind (modify f).
Proof. intros Hf l st. unfold modify. by rewrite Hf. Qed.

Lemma blind_in_world {A} (m : W A) : blind (in_world m).
Proof.
  intros l st. unfold in_world, zoom.
  change (world (with_ft l st)) with (world st).
  destruct (m (world st)). reflexivity.
Qed.

Lemma blind_try_except {A} (m : M A) (h : exn → option (M A)) :
  blind m → (∀ e k, h e = Some k → blind k) → blind (try_except m h).
Proof.
  intros Hm Hh l st. unfold try_except. rewrite Hm.
  destruct (m st) as [[a|e|] st']; simpl; [done| |done].
  destruct (h e) as [k|] eqn:He; [by apply (Hh e k)|done].
Qed.

Lemma blind_finally {A} (m : M A) (fin : M unit) :
  blind m → blind fin → blind (finally m fin).
Proof.
  intros Hm Hf l st. unfold finally. rewrite Hm.
  destruct (m st) as [[a|e|] st']; simpl; [| |done];
    rewrite Hf; by destruct (fin st') as [[[]|e'|] st''].
Qed.

Lemma blind_fun_on_self_flag b : blind_fun (on_self (set_is_recording b)).
Proof. by intros l st. Qed.

Lemma blind_fun_on_self_thread t : blind_fun (on_self (set_transcription_thread t)).
Proof. by intros l st. Qed.

Lemma blind_fun_on_self_text t : blind_fun (on_self (set_current_text t)).
Proof. by intros l st. Qed.

Lemma blind_fun_on_world f : blind_fun (on_world f).
Proof. by intros l st. Qed.

Lemma blind_fun_set_pc p : blind_fun (set_pc p).
Proof. by intros l st. Qed.

Lemma blind_queue_put c : blind (queue_put c).
Proof.
  intros l st. unfold queue_put. simpl.
  by destruct (full (audio_queue (self st))).
Qed.

Lemma blind_queue_get w : blind (queue_get w).
Proof.
  intros l st. unfold queue_get.
  change (audio_queue (self (with_ft l st))) with (audio_queue (self st)).
  destruct (items (audio_queue (self st)));
    [by destruct (get_timeout <=? w)|reflexivity].
Qed.

(** The closure rules, applied by the shape of the computation. *)
Ltac blind_rule :=
  lazymatch goal with
  | |- blind (mret _) => apply blind_mret
  | |- blind (raise _) => apply blind_raise
  | |- blind (in_world _) => apply blind_in_world
  | |- blind (queue_put _) => apply blind_queue_put
  | |- blind (queue_get _) => apply blind_queue_get
  | |- blind (gets _) => apply blind_gets; done
  | |- blind (modify (on_self (set_is_recording _))) =>
      apply blind_modify, blind_fun_on_self_flag
  | |- blind (modify (on_self (set_transcription_thread _))) =>
      apply blind_modify, blind_fun_on_self_thread
  | |- blind (modify (on_self (set_current_text _))) =>
      apply blind_modify, blind_fun_on_self_text
  | |- blind (modify (on_world _)) => apply blind_modify, blind_fun_on_world
  | |- blind (modify (set_pc _)) => apply blind_modify, blind_fun_set_pc
  | |- blind (_ ≫= _) => apply blind_bind; [|intros ?]
  | |- blind (match ?o with Some _ => _ | None => _ end) => destruct o
  | |- blind (if ?b then _ else _) => destruct b
  | |- blind (finally _ _) => apply blind_finally
  | |- blind (try_except _ _) =>
      apply blind_try_except;
        [|let e := fresh "e" in let k := fresh "k" in
          intros e k; destruct e; simpl; intros [= <-]]
  end.

Ltac solve_blind := repeat blind_rule.

Lemma blind_audio_callback b status : blind (audio_callback b status).
Proof. unfold audio_callback. solve_blind. Qed.

Lemma blind_display_transcription : blind display_transcription.
Proof. unfold display_transcription. solve_blind. Qed.

Lemma blind_loop_body got : blind got → blind (loop_body got).
Proof.
  intros Hgot. unfold loop_body. solve_blind; try done.
  apply blind_display_transcription.
Qed.

Lemma blind_worker_turn w : blind_fun (worker_turn w).
Proof.
  intros l st. unfold worker_turn.
  rewrite (blind_loop_body (queue_get w) (blind_queue_get w)).
  destruct (loop_body (queue_get w) st) as [[[]|e|] st']; done.
Qed.

Lemma blind_worker_step : blind_fun worker_step.
Proof.
  intros l st. unfold worker_step.
  change (worker_at (with_ft l st)) with (worker_at st).
  destruct (worker_at st) as [[| | |w| |e]|]; try done.
  - change (is_recording (self (with_ft l st))) with (is_recording (self st)).
    destruct (is_recording (self st)); [apply blind_worker_turn|done].
  - apply blind_worker_turn.
Qed.

Lemma blind_step ev : blind_fun (step ev).
Proof.
  intros l st. destruct ev as [b data status| |ms]; simpl.
  - change (stream_open (world (with_ft l st))) with (stream_open (world st)).
    destruct (stream_open (world st)); [|done].
    change (on_world ?f (with_ft l st)) with (with_ft l (on_world f st)).
    by rewrite blind_audio_callback.
  - apply blind_worker_step.
  - unfold elapse.
    change (worker_at (on_world ?f (with_ft l st))) with (worker_at (on_world f st)).
    by destruct (worker_at _) as [[]|].
Qed.

Lemma blind_run evs : blind_fun (run evs).
Proof.
  intros l st. revert st. induction evs as [|ev evs IH]; intros st; [done|].
  rewrite !run_cons, blind_step. apply IH.
Qed.

Lemma blind_wait done budget evs :
  (∀ l st, done (with_ft l st) = done st) → blind_fun (wait done budget evs).
Proof.
  intros Hdone l st. revert budget st.
  induction evs as [|ev evs IH]; intros budget st; simpl; rewrite Hdone.
  - destruct (done st); [done|]. apply (blind_step (Elapse budget)).
  - destruct (done st); [done|]. destruct ev as [b data status| |ms].
    + rewrite <- IH. f_equal. apply (blind_step (Callback b data status)).
    + rewrite <- IH. f_equal. apply (blind_step WorkerStep).
    + destruct (budget <=? ms); [apply (blind_step (Elapse budget))|].
      rewrite <- IH. f_equal. apply (blind_step (Elapse ms)).
Qed.

Lemma blind_save_transcription : blind save_transcription.
Proof. unfold save_transcription. solve_blind. Qed.

Lemma blind_stop_recording dj : blind (stop_recording dj).
Proof.
  unfold stop_recording, join. solve_blind.
  - apply blind_modify, blind_wait. done.
  - apply blind_save_transcription.
Qed.

Lemma blind_idle_loop slots cause : blind (idle_loop slots cause).
Proof.
  intros l st. revert st. induction slots as [|evs slots IH]; intros st; simpl.
  - by destruct (is_recording (self st)).
  - destruct (is_recording (self st)); [|done].
    unfold sleep, modify. simpl. rewrite blind_wait by done. apply IH.
Qed.

Lemma blind_start_recording sc : blind (start_recording sc).
Proof.
  unfold start_recording, with_input_stream. solve_blind.
  - apply blind_modify, blind_run.
  - apply blind_display_transcription.
  - apply blind_idle_loop.
  - apply blind_stop_recording.
Qed.

(** C10. [full_transcription] is the empty list when the object is
    constructed, and no operation reads or writes it: the callback, the
    worker, the display, [start_recording] and [stop_recording] do the
    same to the console, the files and every other attribute whatever it
    holds, and leave it as it is; so it is empty in the object [main]
    leaves behind, and the file and the display come from
    [current_text] alone. *)
Theorem full_transcription_unused (b : nat) (status : str) (sc : script)
    (dj : list event) (ev : event) (load_error : option exn)
    (w : World E) (st : State E) :
  (∀ name rate duration o w',
     init name rate duration None w = (Ret o, w') → full_transcription o = [])
  ∧ (blind (audio_callback b status)
     ∧ blind display_transcription
     ∧ blind (start_recording sc)
     ∧ blind (stop_recording dj)
     ∧ blind_fun worker_step
     ∧ blind_fun (step ev))
  ∧ (full_transcription (self (snd (audio_callback b status st)))
     = full_transcription (self st)
     ∧ full_transcription (self (snd (display_transcription st)))
       = full_transcription (self st)
     ∧ full_transcription (self (snd (start_recording sc st)))
       = full_transcription (self st)
     ∧ full_transcription (self (snd (stop_recording dj st)))
       = full_transcription (self st)
     ∧ full_transcription (self (worker_step st)) = full_transcription (self st)
     ∧ full_transcription (self (step ev st)) = full_transcription (self st))
  ∧ (∀ o, snd (main load_error sc w) = Some o → full_transcription o = []).
Proof.
  split_and!.
  - intros name rate duration o w'. unfold init. unfold_monad. simpl.
    by intros [= <- _].
  - apply blind_audio_callback.
  - apply blind_display_transcription.
  - apply blind_start_recording.
  - apply blind_stop_recording.
  - apply blind_worker_step.
  - apply blind_step.
  - apply blind_keeps, blind_audio_callback.
  - apply blind_keeps, blind_display_transcription.
  - apply blind_keeps, blind_start_recording.
  - apply blind_keeps, blind_stop_recording.
  - apply blind_fun_keeps, blind_worker_step.
  - apply (blind_fun_keeps (step ev)), blind_step.
  - intros o. destruct load_error as [e|].
    + rewrite main_load_error. discriminate.
    + pose proof (main_started sc w) as Hmain. cbv zeta in Hmain.
      rewrite Hmain. simpl. intros [= <-].
      pose proof (blind_keeps (start_recording sc)
                    {| self := constructed; world := wlog banner w |}
                    (blind_start_recording sc)) as Hkeep.
      rewrite start_recording_eq in Hkeep. exact Hkeep.
Qed.

(** * Further properties of the code *)

(** ** What a delivery of the hardware leaves alone *)

Lemma callback_frame (st : State E) b data status :
  worker_at (step (Callback b data status) st) = worker_at st
  ∧ is_recording (self (step (Callback b data status) st)) = is_recording (self st)
  ∧ stream_session (world (step (Callback b data status) st))
    = stream_session (world st)
  ∧ ∃ l, items (audio_queue (self (step (Callback b data status) st)))
         = items (audio_queue (self st)) ++ l.
Proof.
  unfold step. destruct (stream_open (world st));
    [|split_and!; try done; exists []; by rewrite app_nil_r].
  unfold audio_callback. unfold_monad. unfold queue_put, copy, column0, ndim.
  destruct_state st. simpl in *.
  destruct (truthy status); simpl; rewrite ?lookup_total_insert_eq;
    destruct data as [xs|[|c] rows]; simpl;
    rewrite ?lookup_total_insert_eq; simpl;
    try destruct (full audio_queue0); simpl;
    (split_and!; try done);
    first [ by eexists | exists []; by rewrite app_nil_r ].
Qed.

Lemma callback_trace_quiet {A} (f : obs → option A) (st : State E) b data status :
  (∀ s, f (Printed s) = None) →
  omap f (trace (world (step (Callback b data status) st)))
  = omap f (trace (world st)).
Proof.
  intros Hf. destruct (callback_quiet st b data status) as (_ & l & -> & Hl).
  by rewrite omap_app, (omap_printed_only f l), app_nil_r.
Qed.

(** ** After recording has stopped *)

(** The frames a worker may still take: the one its [get] is waiting
    for. *)
Definition credit (st : State E) : nat :=
  match worker_at st with Some (WGet _) => 1 | _ => 0 end.

Lemma stopped_step (st : State E) ev :
  is_recording (self st) = false →
  ∃ l, submitted (step ev st) = submitted st ++ l
       ∧ length l + credit (step ev st) ≤ credit st
       ∧ length (items (audio_queue (self st))) + credit (step ev st)
         ≤ length (items (audio_queue (self (step ev st)))) + credit st.
Proof.
  intros Hrec. unfold credit, submitted. destruct ev as [b data status| |ms].
  - destruct (callback_frame st b data status) as (-> & _ & _ & l & ->).
    exists []. rewrite (callback_trace_quiet submission) by done.
    rewrite app_nil_r, length_app. simpl. split_and!; [done|lia|lia].
  - change (step WorkerStep st) with (worker_step st).
    worker_cases st;
      try (destruct Hg as [(_ & Hg & _)|Hg]; [congruence|]);
      norm_pc; rewrite ?Hpc, ?Hg; simpl; rewrite ?omap_app; simpl; drop_display;
      rewrite ?app_nil_r, ?Hq; simpl;
      try (exists []; rewrite app_nil_r; simpl; split_and!; [done|lia|lia]);
      try (eexists; split_and!; [reflexivity|simpl; lia|simpl; lia]).
  - simpl. rewrite elapse_eq. exists []. rewrite app_nil_r.
    destruct (worker_at st) as [[]|] eqn:Hpc; simpl; norm_pc; rewrite ?Hpc;
      simpl; split_and!; try done; lia.
Qed.

Lemma stopped_run (st : State E) evs :
  is_recording (self st) = false →
  ∃ l, submitted (run evs st) = submitted st ++ l
       ∧ length l + credit (run evs st) ≤ credit st
       ∧ length (items (audio_queue (self st))) + credit (run evs st)
         ≤ length (items (audio_queue (self (run evs st)))) + credit st.
Proof.
  revert st. induction evs as [|ev evs IH]; intros st Hrec.
  - exists []. rewrite app_nil_r. simpl. split_and!; [done|lia|lia].
  - rewrite run_cons.
    destruct (stopped_step st ev Hrec) as (l1 & Hs1 & Hc1 & Hq1).
    destruct (IH (step ev st)) as (l2 & Hs2 & Hc2 & Hq2);
      [by rewrite is_recording_step|].
    exists (l1 ++ l2). rewrite Hs2, Hs1, <- app_assoc, length_app.
    split_and!; [done|lia|lia].
Qed.

(** X1. Once [is_recording] is false the worker hands at most one more
    frame to the recognizer, whatever the threads do and however long
    they go on: the queue loses at most one frame, and the frames behind
    it stay there and are never submitted. *)
Theorem at_most_one_frame_after_stop (st : State E) (evs : list event) :
  is_recording (self st) = false →
  ∃ l, submitted (run evs st) = submitted st ++ l
       ∧ length l ≤ 1
       ∧ length (items (audio_queue (self st)))
         ≤ S (length (items (audio_queue (self (run evs st))))).
Proof.
  intros Hrec. destruct (stopped_run st evs Hrec) as (l & Hs & Hc & Hq).
  exists l. unfold credit in *.
  split_and!; [done| |].
  - destruct (worker_at st) as [[]|]; lia.
  - destruct (worker_at st) as [[]|]; lia.
Qed.

(** ** The idle loop of the main thread *)

(** X2. Neither the callback nor the worker nor the passing of time
    clears [is_recording], so the loop [while self.is_recording:
    time.sleep(0.1)] of [start_recording] never ends by its test: it is
    left by the exception that interrupts a sleep, with the session still
    recording. *)
Theorem recording_ends_only_by_exception (slots : list (list event))
    (cause : exn) (evs : list event) (st : State E) :
  is_recording (self st) = true →
  is_recording (self (run evs st)) = true
  ∧ ∃ st', idle_loop slots cause st = (Raise cause, st')
           ∧ is_recording (self st') = true.
Proof.
  intros Hrec. split; [by rewrite is_recording_run|].
  exists (idle slots st). split; [by apply idle_loop_eq|].
  destruct (idle_run slots st) as (evs' & ->). by rewrite is_recording_run.
Qed.

(** ** A worker that has ended *)

Definition ended (st : State E) : Prop :=
  worker_at st = Some WDone ∨ ∃ e, worker_at st = Some (WRaised e).

Lemma ended_step (st : State E) ev :
  ended st →
  worker_at (step ev st) = worker_at st
  ∧ submitted (step ev st) = submitted st
  ∧ current_text (self (step ev st)) = current_text (self st).
Proof.
  intros Hend. destruct ev as [b data status| |ms].
  - destruct (callback_frame st b data status) as (Hw & _).
    destruct (callback_quiet st b data status) as (Ht & _).
    split_and!; [done| |done].
    unfold submitted. by apply callback_trace_quiet.
  - assert (Hsame : step WorkerStep st = st).
    { unfold step, worker_step. by destruct Hend as [->|[e ->]]. }
    by rewrite Hsame.
  - simpl. rewrite elapse_eq.
    destruct Hend as [H|[e H]]; rewrite H; (split_and!; [exact H|done|done]).
Qed.

Lemma ended_run (st : State E) evs :
  ended st →
  worker_at (run evs st) = worker_at st
  ∧ submitted (run evs st) = submitted st
  ∧ current_text (self (run evs st)) = current_text (self st).
Proof.
  revert st. induction evs as [|ev evs IH]; intros st Hend; [done|].
  rewrite run_cons. destruct (ended_step st ev Hend) as (Hw & Hs & Ht).
  destruct (IH (step ev st)) as (-> & -> & ->);
    [unfold ended; by rewrite Hw|]. done.
Qed.

(** X3. When the worker thread has ended while the stream is open (it
    returned, or an exception outside [Exception] left its loop), nothing
    restarts it and the main thread does not notice: the session goes on
    recording, every frame delivered is put in the queue and stays
    there, nothing more is submitted and the transcript no longer
    changes. *)
Theorem frames_pile_up_after_worker_ends (st : State E) (evs : list event) :
  Inv st →
  stream_open (world st) = true →
  ended st →
  worker_at (run evs st) = worker_at st
  ∧ is_recording (self (run evs st)) = is_recording (self st)
  ∧ submitted (run evs st) = submitted st
  ∧ pending (run evs st) = pending st ++ enqueued evs
  ∧ current_text (self (run evs st)) = current_text (self st).
Proof.
  intros HI Hopen Hend.
  destruct (ended_run st evs Hend) as (Hw & Hs & Ht).
  pose proof (fifo_run st evs HI Hopen) as Hfifo.
  rewrite Hs in Hfifo. apply app_inv_head in Hfifo.
  split_and!; try done. apply is_recording_run.
Qed.

(** ** The name of the transcript *)

(** X4. The file name [stop_recording] makes has 41 characters, and for
    dates with a year of four digits it tells the second it was made:
    two names are the same only for the same second, so that only a
    transcript saved within the same second is replaced. *)
Theorem transcript_name_injective (d1 d2 : datetime) :
  wellformed d1 →
  wellformed d2 →
  length (transcript_name d1) = 41
  ∧ (transcript_name d1 = transcript_name d2 ↔ d1 = d2).
Proof.
  intros H1 H2. unfold transcript_name. split.
  - rewrite !length_app, !length_lit, length_stamp. reflexivity.
  - split; [|by intros ->].
    intros Heq. apply app_inv_head, app_inv_tail in Heq.
    by apply stamp_inj.
Qed.

(** ** Exceptions outside [Exception] *)

(** X5. [main] and [start_recording] catch [Exception] and, while
    recording, [KeyboardInterrupt]; anything else outside [Exception]
    leaves [main].  Raised by [from_pretrained] (an interrupt while the
    model loads, say) it leaves at once: nothing is printed after the
    line that announces the model and no object exists.  Raised while
    the session runs, and not an interrupt, it leaves after
    [stop_recording] has run: recording is off and the closing line is
    the last thing printed. *)
Theorem uncaught_outside_exception (e : exn) (sc : script) (w : World E) :
  is_Exception e = false →
  main (Some e) sc w = ((Raise e, wlog banner w), None)
  ∧ (default (cause sc) (open_error sc) = e → e ≠ KeyboardInterrupt →
     ∃ st', main None sc w = ((Raise e, world st'), Some (self st'))
            ∧ is_recording (self st') = false
            ∧ last (trace (world st')) = Some ended_line).
Proof.
  intros He. split; [by rewrite main_load_error, He|].
  intros Hcause Hnot.
  pose proof (main_started sc w) as Hmain. cbv zeta in Hmain.
  set (st0 := {| self := constructed; world := wlog banner w |}) in *.
  assert (Hfst : fst (recorded sc (started sc st0)) = e).
  { rewrite <- Hcause. unfold recorded. by destruct (open_error sc). }
  rewrite Hfst in Hmain.
  assert (Hout : outcome e = Raise e) by (destruct e; done).
  rewrite Hout in Hmain.
  eexists. split; [exact Hmain|].
  destruct (after_join_facts (during_join sc) (snd (recorded sc (started sc st0))))
    as (_ & Hrec & _).
  unfold saved. destruct (truthy _); simpl; (split; [done|]);
    by rewrite last_app.
Qed.

(** ** The input stream *)

Definition stream_event (o : obs) : option obs :=
  match o with
  | OpenStream _ _ _ | CloseStream => Some o
  | _ => None
  end.

(** The openings and closings of the input stream so far. *)
Definition stream_events (st : State E) : list obs :=
  omap stream_event (trace (world st)).

(** The [daemon] flag of the worker thread, when there is one. *)
Definition worker_daemon (st : State E) : option bool :=
  daemon <$> transcription_thread (self st).

Lemma stream_events_log (st : State E) l :
  stream_events (log l st) = stream_events st ++ omap stream_event l.
Proof. unfold stream_events. simpl. by rewrite omap_app. Qed.

Lemma stream_events_run (st : State E) evs :
  stream_events (run evs st) = stream_events st.
Proof.
  unfold stream_events. destruct (run_world st evs) as (_ & _ & l & -> & Hl).
  rewrite omap_app, (omap_worker_obs stream_event l); [by rewrite app_nil_r| |done].
  by intros [].
Qed.

Lemma worker_daemon_step (st : State E) ev :
  worker_daemon (step ev st) = worker_daemon st.
Proof.
  unfold worker_daemon. destruct ev as [b data status| |ms].
  - unfold step. destruct (stream_open (world st)); [|done].
    unfold audio_callback. unfold_monad. unfold queue_put, copy, column0, ndim.
    destruct_state st. simpl in *.
    destruct (truthy status); simpl; rewrite ?lookup_total_insert_eq;
      destruct data as [xs|[|c] rows]; simpl;
      rewrite ?lookup_total_insert_eq; simpl;
      try destruct (full audio_queue0); done.
  - change (step WorkerStep st) with (worker_step st).
    worker_cases st; simpl; by destruct (transcription_thread (self st)).
  - simpl. rewrite elapse_eq.
    destruct (worker_at st) as [[]|]; simpl;
      by destruct (transcription_thread (self st)).
Qed.

Lemma worker_daemon_run (st : State E) evs :
  worker_daemon (run evs st) = worker_daemon st.
Proof.
  revert st. induction evs as [|ev evs IH]; intros st; [done|].
  rewrite run_cons, IH. apply worker_daemon_step.
Qed.

Lemma after_join_run (dj : list event) (st : State E) :
  ∃ evs, after_join dj st = run evs (on_self (set_is_recording false) st).
Proof.
  unfold after_join. destruct (transcription_thread (self st)).
  - destruct (wait_run thread_ended join_timeout dj
                (on_self (set_is_recording false) st)) as (evs & -> & _).
    by exists evs.
  - by exists [].
Qed.

(** What holds of a session from the moment the worker thread is
    started: the thread is a daemon and has been started. *)
Definition worker_started (st : State E) : Prop :=
  worker_daemon st = Some true ∧ started_pc st.

Lemma worker_started_run (st : State E) evs :
  worker_started st → worker_started (run evs st).
Proof.
  intros [Hd Hp]. split; [by rewrite worker_daemon_run|by apply started_pc_run].
Qed.

Lemma worker_started_handled e (st : State E) :
  worker_started st → worker_started (handled e st).
Proof. destruct e; simpl; try done; by destruct (is_Exception _). Qed.

Lemma stream_events_handled e (st : State E) :
  stream_events (handled e st) = stream_events st.
Proof.
  destruct e; simpl; try done;
    try (destruct (is_Exception _); [|done]);
    by rewrite stream_events_log, app_nil_r.
Qed.

Lemma stream_open_handled e (st : State E) :
  stream_open (world (handled e st)) = stream_open (world st).
Proof. destruct e; simpl; try done; by destruct (is_Exception _). Qed.

Lemma stream_events_saved (st : State E) :
  stream_events (saved st) = stream_events st.
Proof.
  unfold saved, stream_events. destruct (truthy _); simpl;
    by rewrite omap_app, app_nil_r.
Qed.

(** X6. [start_recording] calls [sd.InputStream] once, with the sample
    rate and block size of the object and one channel, and the [with]
    statement closes the stream once on every way out of the block; a
    stream that fails to open is not closed.
    When the method is over an opened stream delivers nothing any more,
    recording is off, and the worker thread it started is a daemon
    thread. *)
Theorem input_stream_scoped (sc : script) (st : State E) :
  let st' := snd (start_recording sc st) in
  stream_events st'
  = stream_events st
    ++ OpenStream (sample_rate (self st)) 1 (chunk_size (self st))
       :: (if open_error sc is Some _ then [] else [CloseStream])
  ∧ stream_open (world st')
    = (if open_error sc is Some _ then stream_open (world st) else false)
  ∧ is_recording (self st') = false
  ∧ ∃ t, transcription_thread (self st') = Some t
         ∧ daemon t = true ∧ pc t ≠ Unstarted.
Proof.
  intros st'. unfold st'. rewrite start_recording_eq. simpl.
  set (pre := set_pc WReady
     (on_self (set_transcription_thread
                 (Some {| daemon := true; pc := Unstarted |}))
        (on_self (set_is_recording true)
           (log [Printed (lit "Initializing audio capture..." ++ [10%N]);
                 Printed ((lit "Sample rate: "
                           ++ repr_int (sample_rate (self st)) ++ lit " Hz")
                          ++ [10%N]);
                 Printed ((lit "Chunk duration: "
                           ++ repr_float (chunk_duration (self st))
                           ++ lit " seconds") ++ [10%N]);
                 Printed [10%N]] st)))).
  assert (Hst1 : started sc st = run (startup sc) pre) by done.
  set (st1 := started sc st) in *.
  assert (Hev1 : stream_events st1 = stream_events st).
  { rewrite Hst1, stream_events_run. unfold stream_events. simpl.
    by rewrite omap_app, app_nil_r. }
  assert (Hop1 : stream_open (world st1) = stream_open (world st))
    by (by rewrite Hst1, stream_open_run).
  assert (Hws1 : worker_started st1).
  { rewrite Hst1. apply worker_started_run. by split. }
  destruct (config_run pre (startup sc)) as (Hrate & Hsize).
  rewrite <- Hst1 in Hrate, Hsize. simpl in Hrate, Hsize.
  set (st4 := snd (recorded sc st1)).
  assert (H4 : stream_events st4
               = stream_events st
                 ++ OpenStream (sample_rate (self st)) 1 (chunk_size (self st))
                    :: (if open_error sc is Some _ then [] else [CloseStream])
               ∧ stream_open (world st4)
                 = (if open_error sc is Some _ then stream_open (world st) else false)
               ∧ worker_started st4).
  { unfold st4, recorded. rewrite Hrate, Hsize.
    destruct (open_error sc) as [e|]; simpl.
    - rewrite stream_events_handled, stream_open_handled, stream_events_log, Hev1.
      split_and!; [done|done|]. by apply worker_started_handled.
    - rewrite stream_events_handled, stream_open_handled.
      destruct (idle_run (sleeps sc)
        (displayed (log [recording_line]
           (on_world (set_stream_open true)
              (log [OpenStream (sample_rate (self st)) 1 (chunk_size (self st))]
                 st1))))) as (evs & Hidle).
      rewrite Hidle. split_and!; [|done|].
      + rewrite stream_events_log.
        change (stream_events (on_world (set_stream_open false) ?s))
          with (stream_events s).
        rewrite stream_events_run. unfold stream_events at 1. simpl.
        rewrite !omap_app. simpl. drop_display.
        fold (stream_events st1). rewrite Hev1, !app_nil_r, <- app_assoc.
        reflexivity.
      + apply worker_started_handled.
        change (worker_started (run evs
          (displayed (log [recording_line]
             (on_world (set_stream_open true)
                (log [OpenStream (sample_rate (self st)) 1 (chunk_size (self st))]
                   st1)))))).
        apply worker_started_run. exact Hws1. }
  destruct H4 as (Hev4 & Hop4 & Hws4).
  destruct (after_join_run (during_join sc) st4) as (evs & Hjoin).
  destruct (after_join_facts (during_join sc) st4) as (_ & Hrec5 & _).
  assert (Hws5 : worker_started (after_join (during_join sc) st4)).
  { rewrite Hjoin. by apply worker_started_run. }
  split_and!.
  - by rewrite stream_events_saved, Hjoin, stream_events_run.
  - transitivity (stream_open (world (after_join (during_join sc) st4)));
      [unfold saved; by destruct (truthy _)|].
    by rewrite Hjoin, stream_open_run.
  - unfold saved. by destruct (truthy _).
  - destruct Hws5 as [Hd Hp]. unfold worker_daemon, started_pc, worker_at in *.
    assert (Hth : transcription_thread (self (saved (after_join (during_join sc) st4)))
                  = transcription_thread (self (after_join (during_join sc) st4)))
      by (unfold saved; by destruct (truthy _)).
    rewrite Hth.
    destruct (transcription_thread (self (after_join (during_join sc) st4)))
      as [[d p]|]; [|done].
    simpl in *. exists {| daemon := d; pc := p |}.
    split_and!; simpl; [done|congruence|by destruct p].
Qed.

(** ** A buffer without channels *)

(** X7. On a buffer of two dimensions that has no channel, [indata[:,
    0]] raises [IndexError]: the callback has printed the status flags,
    and it puts nothing in the queue and copies nothing. *)
Theorem callback_without_channel (st : State E) (b : nat) (status : str)
    (rows : list (list sample)) :
  hw (world st) !!! b = Data2 0 rows →
  ∃ st', audio_callback b status st
         = (Raise (IndexError
                     (lit "index 0 is out of bounds for axis 1 with size 0")),
            st')
         ∧ st' = log (status_line status) st
         ∧ audio_queue (self st') = audio_queue (self st)
         ∧ arrays (world st') = arrays (world st).
Proof.
  intros Hb. exists (log (status_line status) st).
  split; [|done].
  destruct st as [o w]. simpl in *.
  unfold audio_callback, status_line. unfold_monad.
  unfold queue_put, copy, column0, ndim.
  destruct (truthy status);
    repeat (progress (simpl; rewrite ?Hb));
    unfold log, on_world; simpl; rewrite ?app_nil_r; destruct w; reflexivity.
Qed.

(** ** The display *)

(** X8. [display_transcription] reads the clock once and writes to the
    console, nothing else: the object, the files, the arrays and the
    recognizer are as before.  It first clears the screen, without a line
    break; it shows the transcript, as it is, when the transcript has a
    character that is not white space, in a frame of 12 pieces of
    output, and the line "Listening..." in a frame of 10 otherwise. *)
Theorem display_changes_console_only (st : State E) :
  let text := current_text (self st) in
  ∃ st' out,
    display_transcription st = (Ret tt, st')
    ∧ self st' = self st
    ∧ fs (world st') = fs (world st)
    ∧ arrays (world st') = arrays (world st)
    ∧ stream_session (world st') = stream_session (world st)
    ∧ uptime (world st') = uptime (world st)
    ∧ clock_reads (world st') = S (clock_reads (world st))
    ∧ trace (world st') = trace (world st) ++ Rendered text :: out
    ∧ printed_only out
    ∧ head out = Some (Printed ([27%N] ++ lit "[2J" ++ [27%N] ++ lit "[H"))
    ∧ if truthy (strip text)
      then length out = 12 ∧ Printed (text ++ [10%N]) ∈ out
      else length out = 10
           ∧ Printed (lit "Listening... (speak into your microphone)" ++ [10%N])
             ∈ out.
Proof.
  intros text.
  exists (displayed st),
    (display_output text (clock (clock_reads (world st)))).
  split; [apply display_transcription_eq|].
  split_and!; try done.
  - apply display_output_printed.
  - with_strategy transparent [display_output] (unfold display_output).
    destruct (truthy (strip text)); (split; [reflexivity|set_solver]).
Qed.

(** ** Frames, hypotheses and renders *)

Lemma accounting_step (st : State E) ev :
  length (rendered (step ev st)) + length (hypotheses st)
  ≤ length (rendered st) + length (hypotheses (step ev st))
  ∧ length (hypotheses (step ev st)) + length (submitted st)
    ≤ length (hypotheses st) + length (submitted (step ev st)).
Proof.
  unfold rendered, hypotheses, submitted. destruct ev as [b data status| |ms].
  - rewrite (callback_trace_quiet rendering), (callback_trace_quiet result_read),
      (callback_trace_quiet submission) by done. lia.
  - change (step WorkerStep st) with (worker_step st).
    worker_cases st; simpl; rewrite ?omap_app; simpl; drop_display;
      rewrite ?length_app; simpl; lia.
  - simpl. rewrite elapse_eq. destruct (worker_at st) as [[]|]; simpl; lia.
Qed.

(** X9. The worker reads the hypothesis at most once for each frame it
    submits, and only after [add_audio] returned, and it redraws the
    display at most once for each hypothesis it reads: over any schedule
    there are no more renders than hypotheses read, and no more
    hypotheses read than frames submitted. *)
Theorem renders_bounded_by_frames (st : State E) (evs : list event) :
  length (rendered (run evs st)) + length (hypotheses st)
  ≤ length (rendered st) + length (hypotheses (run evs st))
  ∧ length (hypotheses (run evs st)) + length (submitted st)
    ≤ length (hypotheses st) + length (submitted (run evs st)).
Proof.
  revert st. induction evs as [|ev evs IH]; intros st; [simpl; lia|].
  rewrite run_cons. destruct (accounting_step st ev) as (H1 & H2).
  destruct (IH (step ev st)) as (H3 & H4). lia.
Qed.

(** ** The transcript of a session *)

(** [st'] comes after [st] when some hypotheses were read in between,
    the last of which, if any, is the transcript. *)
Definition follows (st st' : State E) : Prop :=
  ∃ hs, hypotheses st' = hypotheses st ++ hs
        ∧ current_text (self st') = default (current_text (self st)) (last hs).

Lemma follows_same (st st' : State E) :
  hypotheses st' = hypotheses st →
  current_text (self st') = current_text (self st) →
  follows st st'.
Proof. intros Hh Ht. exists []. by rewrite app_nil_r. Qed.

Lemma follows_trans (st1 st2 st3 : State E) :
  follows st1 st2 → follows st2 st3 → follows st1 st3.
Proof.
  intros (hs1 & Hh1 & Ht1) (hs2 & Hh2 & Ht2). exists (hs1 ++ hs2).
  rewrite Hh2, Hh1, Ht2, Ht1, <- app_assoc, last_app.
  split; [done|]. by destruct (last hs2).
Qed.

Lemma follows_run (st : State E) evs : follows st (run evs st).
Proof.
  revert st. induction evs as [|ev evs IH]; intros st; [by apply follows_same|].
  rewrite run_cons. apply follows_trans with (step ev st); [|apply IH].
  destruct (render_step st ev) as (hs & Hh & _ & Ht). by exists hs.
Qed.

Lemma follows_log (st : State E) l :
  omap result_read l = [] → follows st (log l st).
Proof.
  intros Hl. apply follows_same; [|done].
  unfold hypotheses. simpl. by rewrite omap_app, Hl, app_nil_r.
Qed.

Lemma follows_handled e (st : State E) : follows st (handled e st).
Proof.
  destruct e; simpl; try (by apply follows_log); try (by apply follows_same);
    destruct (is_Exception _); (by apply follows_log) || (by apply follows_same).
Qed.

Lemma follows_displayed (st : State E) : follows st (displayed st).
Proof.
  apply follows_same; [|done]. unfold hypotheses. simpl.
  rewrite omap_app. simpl. drop_display. by rewrite app_nil_r.
Qed.

Lemma follows_saved (st : State E) : follows st (saved st).
Proof.
  unfold saved. destruct (truthy _); (apply follows_same; [|done]);
    unfold hypotheses; simpl; by rewrite omap_app, app_nil_r.
Qed.

Lemma follows_recorded sc (st : State E) : follows st (snd (recorded sc st)).
Proof.
  unfold recorded. destruct (open_error sc) as [e|]; simpl.
  - eapply follows_trans; [|apply follows_handled]. by apply follows_log.
  - eapply follows_trans; [|apply follows_handled].
    eapply follows_trans; [|by apply (follows_log _ [CloseStream])].
    eapply follows_trans; [|by apply follows_same].
    destruct (idle_run (sleeps sc)
      (displayed (log [recording_line]
         (on_world (set_stream_open true)
            (log [OpenStream (sample_rate (self st)) 1 (chunk_size (self st))]
               st))))) as (evs & ->).
    eapply follows_trans; [|apply follows_run].
    eapply follows_trans; [|apply follows_displayed].
    eapply follows_trans; [|by apply (follows_log _ [recording_line])].
    eapply follows_trans; [|by apply follows_same].
    by apply follows_log.
Qed.

(** X10. What a session leaves is the last hypothesis, not the history
    of the hypotheses: when [start_recording] is over, the transcript is
    the last hypothesis the worker read since the call (the text the
    object had, when it read none), and the file system is the one of
    before with, when that text has a character that is not white space,
    one file that holds a header followed by that text. *)
Theorem session_saves_last_hypothesis (sc : script) (st : State E) :
  let st' := snd (start_recording sc st) in
  let text := current_text (self st') in
  ∃ hs, hypotheses st' = hypotheses st ++ hs
        ∧ text = default (current_text (self st)) (last hs)
        ∧ if truthy (strip text)
          then ∃ d d', fs (world st')
                       = <[transcript_name d := transcript_header d' ++ text]>
                           (fs (world st))
          else fs (world st') = fs (world st).
Proof.
  intros st' text. unfold text, st'. clear st' text.
  rewrite start_recording_eq. simpl.
  set (st4 := snd (recorded sc (started sc st))).
  set (st5 := after_join (during_join sc) st4).
  assert (Hf : follows st (saved st5)).
  { eapply follows_trans; [|apply follows_saved].
    destruct (after_join_run (during_join sc) st4) as (evs & Hjoin).
    unfold st5. rewrite Hjoin.
    eapply follows_trans; [|apply follows_run].
    eapply follows_trans; [|by apply follows_same].
    eapply follows_trans; [|apply follows_recorded].
    unfold started. eapply follows_trans; [|apply follows_run].
    apply follows_same; [|done].
    unfold hypotheses. simpl. by rewrite omap_app, app_nil_r. }
  destruct Hf as (hs & Hh & Ht). exists hs. split_and!; [done|done|].
  destruct (after_join_facts (during_join sc) st4) as (Hfs & _).
  fold st5 in Hfs.
  assert (Hfs4 : fs (world st4) = fs (world st))
    by (unfold st4; by rewrite fs_recorded, fs_started).
  assert (Htext : current_text (self (saved st5)) = current_text (self st5))
    by (unfold saved; by destruct (truthy _)).
  rewrite Htext. unfold saved.
  destruct (truthy (strip (current_text (self st5)))); simpl.
  - eexists _, _. by rewrite Hfs, Hfs4.
  - by rewrite Hfs, Hfs4.
Qed.

(** ** Stopping what was never started *)

(** X11. The constructor announces the model, loads it, and returns an
    object that is idle: an unbounded empty queue, recording off, no
    worker thread, an empty transcript.  [stop_recording] on such an
    object has no thread to join and no text to save: whatever the other
    threads would do meanwhile it returns at once, having written no file
    and printed the closing line only. *)
Theorem stop_before_start (name : str) (rate : N) (duration : Q)
    (w : World E) (dj : list event) :
  ∃ o w',
    init name rate duration None w = (Ret o, w')
    ∧ trace w' = trace w ++ [Printed ((lit "Loading model: " ++ name) ++ [10%N]);
                             LoadModel name]
    ∧ audio_queue o = {| maxsize := 0; items := [] |}
    ∧ is_recording o = false
    ∧ transcription_thread o = None
    ∧ current_text o = []
    ∧ stop_recording dj {| self := o; world := w' |}
      = (Ret tt, log [ended_line] {| self := o; world := w' |})
    ∧ fs (world (snd (stop_recording dj {| self := o; world := w' |}))) = fs w
    ∧ uptime (world (snd (stop_recording dj {| self := o; world := w' |})))
      = uptime w.
Proof.
  assert (Hblank : truthy (strip []) = false).
  { assert (H : strip [] = []) by (by apply strip_nil). by rewrite H. }
  eexists _, _. split.
  { unfold init. unfold_monad. simpl. reflexivity. }
  rewrite stop_recording_eq. unfold after_join, saved. simpl. rewrite Hblank.
  destruct w. simpl. rewrite <- ?app_assoc. split_and!; reflexivity.
Qed.

(** ** [queue.Empty] from the recognizer *)

(** X12. The handler [except queue.Empty: continue] covers the whole
    [try] block, not only the [get]: when [add_audio] itself raises
    [queue.Empty] the frame is consumed and the worker is back at the
    loop test as after a timeout, and no "Transcription error" line is
    printed; the transcript is unchanged. *)
Theorem empty_from_recognizer_is_silent (st : State E) (x : ndarray)
    (xs : list ndarray) (ses ses' : session) :
  is_recording (self st) = true →
  in_loop st →
  items (audio_queue (self st)) = x :: xs →
  stream_session (world st) = Some ses →
  add_audio ses (contents (world st) x) = (ses', Some Empty) →
  trace (world (worker_step st))
    = trace (world st) ++ [Submitted (contents (world st) x)]
  ∧ worker_at (worker_step st) = Some WLoop
  ∧ items (audio_queue (self (worker_step st))) = xs
  ∧ stream_session (world (worker_step st)) = Some ses'
  ∧ current_text (self (worker_step st)) = current_text (self st)
  ∧ is_recording (self (worker_step st)) = true.
Proof.
  intros Hrec Hloop Hitems Hses Hadd.
  assert (Heq : worker_step st
                = set_pc WLoop
                    (with_session (Some ses')
                       (log [Submitted (contents (world st) x)]
                          (with_items xs st)))).
  { worker_cases st; try (rewrite Hq in Hitems); simplify_eq;
      try (destruct Hloop as [Hl|[? Hl]]; congruence);
      try (rewrite Hadd in Ha; simplify_eq; try done; congruence).
    destruct Hloop as [Hl|[? Hl]]; by destruct (Hidle _ Hl) as [|[|[]]]. }
  rewrite Heq. split_and!; try done.
  rewrite worker_at_set_pc.
  change (worker_at (with_session _ _)) with (worker_at st).
  by destruct Hloop as [->|[? ->]].
Qed.

End Properties.

(** * Scenarios

    The theorems above at concrete sessions of the recognizer [Fake]. *)

Module Scenario.
Import Fake.

Abbreviation R := Fake.runtime.

(** A session that is recording: the worker thread is started and the
    stream is open. *)
Definition recording {E : Runtime} : State E :=
  {| self := set_transcription_thread (Some {| daemon := true; pc := WReady |})
               (set_is_recording true constructed);
     world := set_stream_open true world0 |}.

(** The stream delivers the mono buffer carrying [s]. *)
Definition hears (s : str) : @event R := @Callback R 0 (mono s) [].

Definition fresh : State R := {| self := constructed; world := world0 |}.

(** A one-dimensional frame carrying [s]. *)
Definition frame (s : str) : array_data (@sample R) := Data1 s.

Lemma Inv_recording : Inv (E:=R) recording.
Proof.
  split; simpl.
  - reflexivity.
  - intros c Hc. by apply elem_of_nil in Hc.
  - intros [H|[w H]]; discriminate.
Qed.

Lemma fake_raises_only_exceptions : raises_only_exceptions (E:=R).
Proof.
  intros s a s' e. destruct a as [xs|c rows]; simpl; unfold hear.
  - case_bool_decide; by intros [= <- <-].
  - by intros [= <- <-].
Qed.

(** Three frames arrive while the worker is scheduled once. *)
Definition burst : list (@event R) :=
  [hears (lit "hi"); hears (lit " there"); WorkerStep; hears (lit "!")].

Lemma fifo_delivery_witness :
  Inv (E:=R) recording
  ∧ stream_open (world (recording (E:=R))) = true
  ∧ is_recording (self (recording (E:=R))) = true
  ∧ live (E:=R) recording
  ∧ raises_only_exceptions (E:=R)
  ∧ length (pending (run burst recording)) ≤ 3
  ∧ submitted (run burst recording) = []
  ∧ pending (run burst recording)
    = [frame (lit "hi"); frame (lit " there"); frame (lit "!")]
  ∧ submitted (run (replicate 4 WorkerStep) (run burst recording))
    = [frame (lit "hi"); frame (lit " there"); frame (lit "!")]
  ∧ pending (run (replicate 4 WorkerStep) (run burst recording)) = [].
Proof.
  assert (Hk : length (pending (run burst recording)) ≤ 3)
    by (vm_compute; lia).
  destruct (fifo_delivery recording burst 3 Inv_recording eq_refl eq_refl
              (or_introl eq_refl) fake_raises_only_exceptions Hk)
    as (_ & _ & Hsub & Hpend).
  split_and!.
  - apply Inv_recording.
  - reflexivity.
  - reflexivity.
  - left. reflexivity.
  - apply fake_raises_only_exceptions.
  - exact Hk.
  - vm_compute. reflexivity.
  - vm_compute. reflexivity.
  - rewrite Hsub. vm_compute. reflexivity.
  - exact Hpend.
Defined.

(** The transcript is saved on an interrupt; two frames are heard, the
    second after the worker's last scheduling before the interrupt. *)
Definition session : @script R :=
  {| startup := [WorkerStep];
     open_error := None;
     sleeps := [[hears (lit "hi"); WorkerStep; Elapse 100];
                [hears (lit " there"); Elapse 100]];
     cause := KeyboardInterrupt;
     during_join := [WorkerStep; WorkerStep] |}.

(** The stream cannot be opened. *)
Definition no_device : @script R :=
  {| startup := [WorkerStep];
     open_error := Some (Exception (lit "Error opening InputStream"));
     sleeps := [];
     cause := KeyboardInterrupt;
     during_join := [WorkerStep; Elapse 100; WorkerStep; WorkerStep] |}.

(** Only a space is heard before the interrupt. *)
Definition murmur : @script R :=
  {| startup := [WorkerStep];
     open_error := None;
     sleeps := [[hears [32%N]; WorkerStep; Elapse 100]];
     cause := KeyboardInterrupt;
     during_join := [WorkerStep; WorkerStep] |}.

(** *** C2 *)

(** Silence, "hi", silence, " there", silence: the hypotheses are "",
    "hi", "hi", "hi there", "hi there", and the worker renders twice. *)
Example two_renders :
  let st := run [WorkerStep;
                 hears []; WorkerStep; hears (lit "hi"); WorkerStep;
                 hears []; WorkerStep; hears (lit " there"); WorkerStep;
                 hears []; WorkerStep] recording in
  hypotheses st = [[]; lit "hi"; lit "hi"; lit "hi there"; lit "hi there"]
  ∧ rendered st = [lit "hi"; lit "hi there"].
Proof. split; vm_compute; reflexivity. Qed.

(** *** C3 *)

(** The worker is in the loop and the first of two frames in the queue
    makes the recognizer raise. *)
Definition bad_frame_first : State R :=
  run [WorkerStep; hears [0%N]; hears (lit "ok")] recording.

Lemma frame_error_contained_witness :
  Inv bad_frame_first
  ∧ is_recording (self bad_frame_first) = true
  ∧ in_loop bad_frame_first
  ∧ items (audio_queue (self bad_frame_first)) = [Owned 0; Owned 1]
  ∧ stream_session (world bad_frame_first) = Some []
  ∧ add_audio (Runtime:=R) [] (contents (world bad_frame_first) (Owned 0))
    = ([], Some (Exception (lit "bad frame")))
  ∧ trace (world (worker_step bad_frame_first))
    = trace (world bad_frame_first)
      ++ [Submitted (frame [0%N]); error_line (Exception (lit "bad frame"))]
  ∧ worker_at (worker_step bad_frame_first) = Some WLoop
  ∧ is_recording (self (worker_step bad_frame_first)) = true
  ∧ rendered (worker_step bad_frame_first) = rendered bad_frame_first
  ∧ submitted (run (replicate 1 WorkerStep) (worker_step bad_frame_first))
    = [frame [0%N]; frame (lit "ok")].
Proof.
  assert (HI : Inv bad_frame_first) by (apply Inv_run, Inv_recording).
  assert (Hk : length [Owned 1] ≤ 1) by (simpl; lia).
  destruct (frame_error_contained bad_frame_first (Owned 0) [Owned 1] [] []
              (Exception (lit "bad frame")) 1 HI eq_refl (or_introl eq_refl)
              eq_refl eq_refl eq_refl eq_refl
              fake_raises_only_exceptions Hk)
    as (Htrace & _ & _ & Hpc & Hrec & _ & Hrend & _ & _ & Hsub & _).
  split_and!.
  - exact HI.
  - vm_compute. reflexivity.
  - left. vm_compute. reflexivity.
  - vm_compute. reflexivity.
  - vm_compute. reflexivity.
  - vm_compute. reflexivity.
  - exact Htrace.
  - exact Hpc.
  - exact Hrec.
  - exact Hrend.
  - rewrite Hsub. vm_compute. reflexivity.
Defined.

(** A recognizer that raises [queue.Empty] on a frame that contains
    sample 0, when the first frame in the queue is such a frame. *)
Definition muted : State (make Empty) :=
  run [WorkerStep; @Callback (make Empty) 0 (mono [0%N]) []]
    (recording (E:=make Empty)).

(** The recognizer raises an [Exception] on the frame, and the worker
    prints nothing: the trace gains the submission only. *)
Lemma recognizer_error_not_logged :
  is_Exception Empty = true
  ∧ is_recording (self muted) = true
  ∧ add_audio (Runtime:=make Empty) [] (contents (world muted) (Owned 0))
    = ([], Some Empty)
  ∧ trace (world muted)
    = [Printed (lit "Starting transcription worker..." ++ [10%N]);
       Acquired (256, 256) 1 false]
  ∧ trace (world (worker_step muted))
    = [Printed (lit "Starting transcription worker..." ++ [10%N]);
       Acquired (256, 256) 1 false;
       Submitted (Data1 [0%N] : array_data (@sample (make Empty)))]
  ∧ items (audio_queue (self (worker_step muted))) = []
  ∧ worker_at (worker_step muted) = Some WLoop.
Proof.
  split_and!.
  - reflexivity.
  - vm_compute. reflexivity.
  - vm_compute. reflexivity.
  - vm_compute. reflexivity.
  - vm_compute. reflexivity.
  - vm_compute. reflexivity.
  - vm_compute. reflexivity.
Qed.

(** *** C4 *)

(** A transcript of one space; and a transcript to save where a file of
    the name of the moment exists. *)
Definition blank : State R :=
  {| self := set_current_text [32%N] constructed; world := world0 |}.

Definition rerun : State R :=
  {| self := set_current_text (lit "new") constructed;
     world := set_fs (<[transcript_name (wall 0) := lit "old"]> ∅) world0 |}.

Lemma blank_transcript_not_saved :
  current_text (self blank) ≠ []
  ∧ fs (world (snd (stop_recording [] blank))) = ∅
  ∧ file_opens (snd (stop_recording [] blank)) = []
  ∧ fs (world rerun) !! transcript_name (wall 0) = Some (lit "old")
  ∧ fs (world (snd (stop_recording [] rerun))) !! transcript_name (wall 0)
    = Some (transcript_header (wall 1) ++ lit "new").
Proof.
  split_and!.
  - discriminate.
  - vm_compute. reflexivity.
  - vm_compute. reflexivity.
  - vm_compute. reflexivity.
  - vm_compute. reflexivity.
Qed.

(** "hello world" is saved under the name of the moment, after the
    header. *)
Example hello_world_saved :
  let st := {| self := set_current_text (lit "hello world") constructed;
               world := world0 (E:=R) |} in
  fs (world (snd (stop_recording [] st)))
  = {[ lit "lecture_transcription_20240309_140500.txt"
       := lit "Lecture Transcription - 2024-03-09 14:05:01"
          ++ [10%N] ++ times (lit "=") 60 ++ [10%N; 10%N]
          ++ lit "hello world" ]}.
Proof. vm_compute. reflexivity. Qed.

(** *** C5 *)

Lemma setup_failures_reported_witness :
  is_Exception (Exception (lit "model not found")) = true
  ∧ stream_open (world0 (E:=R)) = false
  ∧ main (Some (Exception (lit "model not found"))) session world0
    = ((Ret tt,
        wlog (banner ++ failed_lines (Exception (lit "model not found"))) world0),
       None)
  ∧ exit_code (fst (fst (main (Some (Exception (lit "model not found")))
                           session world0)))
    = Some 0%Z.
Proof.
  destruct (setup_failures_reported (Exception (lit "model not found")) session
              world0 eq_refl eq_refl) as ((Hmain & Hexit) & _).
  split_and!.
  - reflexivity.
  - reflexivity.
  - exact Hmain.
  - exact Hexit.
Defined.

Lemma setup_failure_exits_zero :
  exit_code (fst (fst (main (Some (Exception (lit "model not found")))
                         session world0)))
  = Some 0%Z
  ∧ exit_code (fst (fst (main None no_device world0))) = Some 0%Z
  ∧ fst (start_recording no_device fresh) = Ret tt
  ∧ (transcription_thread <$> snd (main None no_device world0))
    = Some (Some {| daemon := true; pc := WDone |}).
Proof.
  split_and!.
  - vm_compute. reflexivity.
  - vm_compute. reflexivity.
  - vm_compute. reflexivity.
  - vm_compute. reflexivity.
Qed.

(** *** C6 *)

(** Recording has stopped, the stream is closed and the worker has been
    waiting in [get] for 30 ms. *)
Definition stopping : State R :=
  {| self := set_transcription_thread
               (Some {| daemon := true; pc := WGet 30 |}) constructed;
     world := @set_stream_session R (Some []) world0 |}.

Lemma shutdown_bounded_witness :
  is_recording (self stopping) = false
  ∧ stream_open (world stopping) = false
  ∧ worker_at stopping = Some (WGet 30)
  ∧ items (audio_queue (self stopping)) = []
  ∧ get_timeout - 30 ≤ total_elapse (E:=R) [Elapse 50; WorkerStep; Elapse 20]
  ∧ worker_at (worker_step (worker_step
                 (run [Elapse 50; WorkerStep; Elapse 20] stopping)))
    = Some WDone.
Proof.
  assert (Ht : get_timeout - 30 ≤ total_elapse (E:=R) [Elapse 50; WorkerStep; Elapse 20])
    by (vm_compute; lia).
  destruct (shutdown_bounded stopping 30 [Elapse 50; WorkerStep; Elapse 20]
              [WorkerStep] eq_refl eq_refl eq_refl eq_refl Ht) as (Hdone & _).
  split_and!.
  - reflexivity.
  - reflexivity.
  - reflexivity.
  - reflexivity.
  - exact Ht.
  - exact Hdone.
Defined.

(** A worker that is not scheduled during the two seconds of the join is
    still waiting when [stop_recording] returns, and the transcript is
    saved all the same. *)
Example saved_while_worker_waits :
  let st := {| self := set_current_text (lit "hi")
                         (set_transcription_thread
                            (Some {| daemon := true; pc := WGet 0 |})
                            (set_is_recording true constructed));
               world := @set_stream_session R (Some []) world0 |} in
  let st' := snd (stop_recording [] st) in
  fst (stop_recording [] st) = Ret tt
  ∧ worker_at st' = Some (WGet 2000)
  ∧ uptime (world st') = 2000
  ∧ is_recording (self st') = false
  ∧ fs (world st') !! lit "lecture_transcription_20240309_140500.txt"
    = Some (transcript_header (wall 1) ++ lit "hi").
Proof. split_and!; vm_compute; reflexivity. Qed.

(** *** C7 *)

Lemma scoped_session_witness :
  worker_at (recording (E:=R)) = Some WReady
  ∧ acquisitions (recording (E:=R)) = []
  ∧ releases (recording (E:=R)) = []
  ∧ stream_session (world (recording (E:=R))) = None
  ∧ acquisitions (run [WorkerStep; hears (lit "a"); WorkerStep] recording)
    = [fixed_config]
  ∧ releases (run [WorkerStep; hears (lit "a"); WorkerStep] recording) = [].
Proof.
  destruct (scoped_session recording [WorkerStep; hears (lit "a"); WorkerStep]
              eq_refl eq_refl eq_refl eq_refl)
    as [(Hpc & _)|[(_ & Hacq & Hrel & _)|([Hpc|(e & _ & Hpc)] & _)]].
  - vm_compute in Hpc. discriminate Hpc.
  - split_and!; [reflexivity..| |]; assumption.
  - vm_compute in Hpc. discriminate Hpc.
  - vm_compute in Hpc. discriminate Hpc.
Defined.

(** An exception outside [Exception] leaves the loop: the streaming
    context is exited and the thread is over. *)
Example released_on_fatal_error :
  let st := run [WorkerStep; @Callback fatal 0 (mono [0%N]) []; WorkerStep]
              (recording (E:=fatal)) in
  worker_at st = Some (WRaised (BaseException (lit "fatal")))
  ∧ acquisitions st = [fixed_config]
  ∧ releases st = [tt]
  ∧ stream_session (world st) = None.
Proof. split_and!; vm_compute; reflexivity. Qed.

(** *** C8 *)

(** The hardware buffer 0 holds "hi" with shape (2, 1). *)
Definition delivering : State R :=
  on_world (set_hw (<[0 := mono (lit "hi")]> ∅)) recording.

Lemma callback_enqueues_copy_witness :
  maxsize (audio_queue (self delivering)) = 0
  ∧ wf_buffer (E:=R) (hw (world delivering) !!! 0)
  ∧ fst (audio_callback 0 (lit "input overflow") delivering) = Ret tt
  ∧ pending (snd (audio_callback 0 (lit "input overflow") delivering))
    = [frame (lit "hi")]
  ∧ pending (run [hears (lit "zz")]
               (snd (audio_callback 0 (lit "input overflow") delivering)))
    = [frame (lit "hi"); frame (lit "zz")].
Proof.
  assert (Hwf : wf_buffer (E:=R) (hw (world delivering) !!! 0)).
  { vm_compute. split; [lia|]. repeat constructor. }
  destruct (callback_enqueues_copy delivering 0 (lit "input overflow")
              [hears (lit "zz")] eq_refl Hwf)
    as (st' & frame & Heq & _).
  split_and!.
  - reflexivity.
  - exact Hwf.
  - rewrite Heq. reflexivity.
  - vm_compute. reflexivity.
  - vm_compute. reflexivity.
Defined.

(** *** C9 *)

Lemma blank_transcript_lost_on_interrupt :
  fst (start_recording murmur fresh) = Ret tt
  ∧ is_recording (self (snd (start_recording murmur fresh))) = false
  ∧ current_text (self (snd (start_recording murmur fresh))) = [32%N]
  ∧ current_text (self (snd (start_recording murmur fresh))) ≠ []
  ∧ fs (world (snd (start_recording murmur fresh))) = ∅.
Proof.
  split_and!.
  - vm_compute. reflexivity.
  - vm_compute. reflexivity.
  - vm_compute. reflexivity.
  - vm_compute. discriminate.
  - vm_compute. reflexivity.
Qed.

(** An interrupt and an error while recording differ by the line the
    handler prints. *)
Example interrupt_and_error_alike :
  let failing := {| startup := startup session; open_error := None;
                    sleeps := sleeps session;
                    cause := Exception (lit "stream died");
                    during_join := during_join session |} in
  let st1 := snd (start_recording session fresh) in
  let st2 := snd (start_recording failing fresh) in
  self st1 = self st2
  ∧ fs (world st1) = fs (world st2)
  ∧ fs (world st1) !! lit "lecture_transcription_20240309_140502.txt"
    = Some (transcript_header (wall 3) ++ lit "hi").
Proof. split_and!; vm_compute; reflexivity. Qed.

(** *** Further properties *)

(** The worker waits in [get] when two frames arrive, and recording is
    switched off before it is scheduled again. *)
Definition interrupted : State R :=
  on_self (set_is_recording false)
    (run [WorkerStep; WorkerStep; hears (lit "a"); hears (lit "b")] recording).

Lemma at_most_one_frame_after_stop_witness :
  is_recording (self interrupted) = false
  ∧ worker_at interrupted = Some (WGet 0)
  ∧ pending interrupted = [frame (lit "a"); frame (lit "b")]
  ∧ submitted (run (replicate 3 WorkerStep) interrupted) = [frame (lit "a")]
  ∧ pending (run (replicate 3 WorkerStep) interrupted) = [frame (lit "b")]
  ∧ ∃ l, submitted (run (replicate 3 WorkerStep) interrupted)
         = submitted interrupted ++ l
         ∧ length l ≤ 1.
Proof.
  destruct (at_most_one_frame_after_stop interrupted (replicate 3 WorkerStep)
              eq_refl) as (l & Hs & Hl & _).
  split_and!.
  - reflexivity.
  - vm_compute. reflexivity.
  - vm_compute. reflexivity.
  - vm_compute. reflexivity.
  - vm_compute. reflexivity.
  - exists l. split; assumption.
Defined.

Lemma recording_ends_only_by_exception_witness :
  is_recording (self (recording (E:=R))) = true
  ∧ fst (idle_loop [[hears (lit "hi"); WorkerStep]; [WorkerStep]]
           KeyboardInterrupt recording)
    = Raise KeyboardInterrupt.
Proof.
  destruct (recording_ends_only_by_exception
              [[hears (lit "hi"); WorkerStep]; [WorkerStep]] KeyboardInterrupt []
              recording eq_refl) as (_ & st' & Heq & _).
  split.
  - reflexivity.
  - rewrite Heq. reflexivity.
Defined.

(** The worker of a recognizer that raises outside [Exception] has been
    ended by its first frame. *)
Definition orphaned : State fatal :=
  run [WorkerStep; @Callback fatal 0 (mono [0%N]) []; WorkerStep]
    (recording (E:=fatal)).

Lemma frames_pile_up_after_worker_ends_witness :
  Inv orphaned
  ∧ stream_open (world orphaned) = true
  ∧ ended orphaned
  ∧ is_recording (self orphaned) = true
  ∧ pending (run [@Callback fatal 0 (mono (lit "a")) []; WorkerStep;
                  @Callback fatal 0 (mono (lit "b")) []] orphaned)
    = [Data1 (lit "a"); Data1 (lit "b")]
  ∧ submitted (run [@Callback fatal 0 (mono (lit "a")) []; WorkerStep;
                    @Callback fatal 0 (mono (lit "b")) []] orphaned)
    = submitted orphaned.
Proof.
  assert (HI : Inv orphaned).
  { apply Inv_run. split; simpl.
    - reflexivity.
    - intros c Hc. by apply elem_of_nil in Hc.
    - intros [H|[w H]]; discriminate. }
  assert (Hend : ended orphaned).
  { right. exists (BaseException (lit "fatal")). vm_compute. reflexivity. }
  destruct (frames_pile_up_after_worker_ends orphaned
              [@Callback fatal 0 (mono (lit "a")) []; WorkerStep;
               @Callback fatal 0 (mono (lit "b")) []] HI eq_refl Hend)
    as (_ & _ & Hsub & Hpend & _).
  split_and!.
  - exact HI.
  - reflexivity.
  - exact Hend.
  - vm_compute. reflexivity.
  - rewrite Hpend. vm_compute. reflexivity.
  - exact Hsub.
Defined.

Lemma wellformed_wall (n : nat) : wellformed (wall n).
Proof.
  unfold wellformed, wall. simpl.
  pose proof (Nat.mod_upper_bound n 60). lia.
Qed.

Lemma transcript_name_injective_witness :
  wellformed (wall 0)
  ∧ wellformed (wall 1)
  ∧ length (transcript_name (wall 0)) = 41
  ∧ transcript_name (wall 0) ≠ transcript_name (wall 1).
Proof.
  destruct (transcript_name_injective (wall 0) (wall 1)
              (wellformed_wall 0) (wellformed_wall 1)) as (Hlen & Hinj).
  split_and!.
  - apply wellformed_wall.
  - apply wellformed_wall.
  - exact Hlen.
  - intros Heq. apply Hinj in Heq. discriminate Heq.
Defined.

(** An interrupt while the model loads. *)
Lemma uncaught_outside_exception_witness :
  is_Exception KeyboardInterrupt = false
  ∧ main (Some KeyboardInterrupt) session (world0 (E:=R))
    = ((Raise KeyboardInterrupt, wlog banner world0), None).
Proof.
  destruct (uncaught_outside_exception KeyboardInterrupt session
              (world0 (E:=R)) eq_refl) as (Hmain & _).
  split.
  - reflexivity.
  - exact Hmain.
Defined.

(** The hardware buffer 0 has two frames of no channel. *)
Definition no_channel : State R :=
  on_world (set_hw (<[0 := Data2 0 [[]; []]]> ∅)) recording.

Lemma callback_without_channel_witness :
  hw (world no_channel) !!! 0 = Data2 0 [[]; []]
  ∧ fst (audio_callback 0 (lit "input overflow") no_channel)
    = Raise (IndexError (lit "index 0 is out of bounds for axis 1 with size 0"))
  ∧ items (audio_queue (self (snd (audio_callback 0 (lit "input overflow")
                                     no_channel)))) = [].
Proof.
  destruct (callback_without_channel no_channel 0 (lit "input overflow")
              [[]; []] eq_refl) as (st' & Heq & _ & Hq & _).
  split_and!.
  - reflexivity.
  - rewrite Heq. reflexivity.
  - rewrite Heq. simpl. rewrite Hq. reflexivity.
Defined.

(** In the session of two frames the second frame is still in the queue
    when recording stops: it is never submitted, and the session leaves
    the last hypothesis read, "hi". *)
Example last_hypothesis_saved :
  let st := snd (start_recording session fresh) in
  hypotheses st = [lit "hi"]
  ∧ rendered st = [[]; lit "hi"]
  ∧ submitted st = [frame (lit "hi")]
  ∧ pending st = [frame (lit " there")]
  ∧ current_text (self st) = lit "hi"
  ∧ fs (world st) !! lit "lecture_transcription_20240309_140502.txt"
    = Some (transcript_header (wall 3) ++ lit "hi").
Proof. split_and!; vm_compute; reflexivity. Qed.

Lemma empty_from_recognizer_is_silent_witness :
  is_recording (self muted) = true
  ∧ in_loop muted
  ∧ items (audio_queue (self muted)) = [Owned 0]
  ∧ stream_session (world muted) = Some []
  ∧ add_audio (Runtime:=make Empty) [] (contents (world muted) (Owned 0))
    = ([], Some Empty)
  ∧ trace (world (worker_step muted))
    = trace (world muted)
      ++ [Submitted (Data1 [0%N] : array_data (@sample (make Empty)))]
  ∧ worker_at (worker_step muted) = Some WLoop.
Proof.
  destruct (empty_from_recognizer_is_silent muted (Owned 0) [] [] []
              eq_refl (or_introl eq_refl) eq_refl eq_refl eq_refl)
    as (Htrace & Hpc & _).
  split_and!.
  - reflexivity.
  - left. reflexivity.
  - reflexivity.
  - reflexivity.
  - reflexivity.
  - exact Htrace.
  - exact Hpc.
Defined.

End Scenario.
